(** * typescript-review: value objects and the Customer aggregate

    A shallow embedding of the four classes of the repository,

    - [Currency]  (src/shared/domain/model/currency.ts),
    - [Money]     (src/shared/domain/model/money.ts),
    - [Customer]  (src/crm/domain/model/customer.ts),
    - [DateTime]  (the date-time value object),

    together with the properties their specification states.

    Instances of [Currency], [Money] and [Customer] are JavaScript objects:
    they live in a heap and are passed around by reference, so the methods
    are functions of a small state-and-exception monad over that heap.
    JavaScript numbers are IEEE 754 binary64 values, JavaScript strings are
    sequences of UTF-16 code units. *)

From Stdlib Require Import ZArith NArith List String Ascii Bool Lia.
From Stdlib Require Import Floats.SpecFloat.
From Stdlib Require DecimalN DecimalPos.
From stdpp Require Import base option list gmap.

Local Open Scope N_scope.

(* ===================================================================== *)
(** ** JavaScript strings *)
(* ===================================================================== *)

(** A string value is a finite sequence of 16-bit code units. *)
Abbreviation code_unit := N.
Abbreviation jsstring := (list code_unit).

(** A source-level string literal made of ASCII characters. *)
Definition lit (s : string) : jsstring :=
  map N_of_ascii (list_ascii_of_string s).
Arguments lit : simpl never.

(** ECMAScript WhiteSpace: TAB, VT, FF, ZWNBSP and the code points of the
    Unicode category Space_Separator. *)
Definition is_WhiteSpace (c : code_unit) : bool :=
  (c =? 0x0009) || (c =? 0x000B) || (c =? 0x000C) || (c =? 0xFEFF)
  || (c =? 0x0020) || (c =? 0x00A0) || (c =? 0x1680)
  || ((0x2000 <=? c) && (c <=? 0x200A))
  || (c =? 0x202F) || (c =? 0x205F) || (c =? 0x3000).

(** ECMAScript LineTerminator: LF, CR, LS, PS. *)
Definition is_LineTerminator (c : code_unit) : bool :=
  (c =? 0x000A) || (c =? 0x000D) || (c =? 0x2028) || (c =? 0x2029).

(** The code units [String.prototype.trim] strips. *)
Definition is_trimmed (c : code_unit) : bool :=
  is_WhiteSpace c || is_LineTerminator c.

Fixpoint trimStart (s : jsstring) : jsstring :=
  match s with
  | [] => []
  | c :: r => if is_trimmed c then trimStart r else s
  end.

Definition trimEnd (s : jsstring) : jsstring := rev (trimStart (rev s)).

(** [String.prototype.trim]: leading and trailing white space and line
    terminators removed. *)
Definition trim (s : jsstring) : jsstring := trimEnd (trimStart s).

(** ToBoolean on a string: only the empty string is falsy. *)
Definition truthy_string (s : jsstring) : bool :=
  match s with [] => false | _ :: _ => true end.

(* ===================================================================== *)
(** ** JavaScript numbers *)
(* ===================================================================== *)

(** The Number type is IEEE 754 binary64: 53 bits of precision, infinities
    at exponent 1024, with NaN and signed zeros. *)
Module Number.
Definition prec : Z := 53.
Definition emax : Z := 1024.

Definition number := spec_float.

Definition zero : number := S754_zero false.
Definition NaN : number := S754_nan.
Definition Infinity : number := S754_infinity false.

(** An integer literal. *)
Definition of_Z (z : Z) : number := binary_normalize prec emax z 0 false.

(** [x + y], [x * y] with round-to-nearest-even. *)
Definition add (x y : number) : number := SFadd prec emax x y.
Definition mul (x y : number) : number := SFmul prec emax x y.

(** [x < y], [x <= y], [x === y]; every comparison with NaN is false. *)
Definition ltb (x y : number) : bool := SFltb x y.
Definition leb (x y : number) : bool := SFleb x y.
Definition eqb (x y : number) : bool := SFeqb x y.

(** [x >= 0] *)
Definition nonneg (x : number) : bool := leb zero x.

(** [x === 0]: holds of both signed zeros. *)
Definition is_zero (x : number) : bool := eqb x zero.

Definition is_nan (x : number) : bool :=
  match x with S754_nan => true | _ => false end.

(** The sign bit of an infinity or of a non-zero finite number. *)
Definition negative (x : number) : bool :=
  match x with
  | S754_infinity s | S754_finite s _ _ => s
  | S754_zero _ | S754_nan => false
  end.

Definition is_finite (x : number) : bool :=
  match x with
  | S754_zero _ | S754_finite _ _ _ => true
  | S754_infinity _ | S754_nan => false
  end.
End Number.

Abbreviation number := Number.number.

(* ===================================================================== *)
(** ** Host capabilities *)
(* ===================================================================== *)

(** What the classes take from the JavaScript run time and do not define
    themselves: number and date rendering inside template literals, the
    date parser behind [new Date(string)], and [crypto.randomUUID()].
    A time value is a number of milliseconds since the epoch, or NaN
    ([None]) for an invalid date. *)
Class Host := {
  Number_toString : number -> jsstring;
  Date_parse : jsstring -> option Z;
  Date_toString : option Z -> jsstring;
  randomUUID : nat -> jsstring
}.

(* ===================================================================== *)
(** ** Objects, heap, completions *)
(* ===================================================================== *)

Definition loc := positive.

(** Field layout of the three heap-allocated classes. *)
Record Currency := { _code : jsstring }.
Record Money := { _amount : number; _currency : loc }.
Record Customer := {
  _id : jsstring;
  _name : jsstring;
  _lastOrderPrice : option loc   (* Money | null *)
}.

Inductive Obj :=
| OCurrency (c : Currency)
| OMoney (m : Money)
| OCustomer (c : Customer).

(** The heap, and how many identifiers [crypto.randomUUID] has handed out. *)
Record World := { heap : gmap loc Obj; drawn : nat }.

Definition empty_world : World := {| heap := ∅; drawn := O |}.

(** [Error msg] is [new Error(msg)], the only exception the classes throw
    themselves. [TypeError] is what dereferencing a reference that does not
    hold an object of the expected class amounts to; type-correct callers
    never see it. *)
Inductive Exn :=
| Error (message : jsstring)
| TypeError.

Inductive Completion (A : Type) :=
| Normal (v : A)
| Throw (e : Exn).
Arguments Normal {A} v.
Arguments Throw {A} e.

Definition M (A : Type) : Type := World -> Completion A * World.

#[export] Instance M_ret : MRet M := fun A v w => (Normal v, w).
#[export] Instance M_bind : MBind M := fun A B f m w =>
  match m w with
  | (Normal v, w') => f v w'
  | (Throw e, w') => (Throw e, w')
  end.

Definition throw {A} (e : Exn) : M A := fun w => (Throw e, w).

(** [new C(...)] once the constructor body has run: a fresh object. *)
Definition alloc (o : Obj) : M loc := fun w =>
  let l := fresh (dom (heap w)) in
  (Normal l, {| heap := <[l := o]> (heap w); drawn := drawn w |}).

Definition store (l : loc) (o : Obj) : M unit := fun w =>
  (Normal tt, {| heap := <[l := o]> (heap w); drawn := drawn w |}).

Definition the_Currency (l : loc) : M Currency := fun w =>
  match heap w !! l with
  | Some (OCurrency c) => (Normal c, w)
  | _ => (Throw TypeError, w)
  end.

Definition the_Money (l : loc) : M Money := fun w =>
  match heap w !! l with
  | Some (OMoney m) => (Normal m, w)
  | _ => (Throw TypeError, w)
  end.

Definition the_Customer (l : loc) : M Customer := fun w =>
  match heap w !! l with
  | Some (OCustomer c) => (Normal c, w)
  | _ => (Throw TypeError, w)
  end.

(** Outcomes of running a method in a world. *)
Definition returns {A} (m : M A) (w : World) (v : A) (w' : World) : Prop :=
  m w = (Normal v, w').

Definition throws {A} (m : M A) (w : World) (msg : jsstring) : Prop :=
  m w = (Throw (Error msg), w).

Definition fails {A} (m : M A) (w : World) : Prop :=
  exists e, fst (m w) = Throw e.

(* ===================================================================== *)
(** ** Currency *)
(* ===================================================================== *)

(** The compile-time type of currency codes. *)
Inductive UpperCaseLetter :=
| U_A | U_B | U_C | U_D | U_E | U_F | U_G | U_H | U_I | U_J | U_K | U_L | U_M
| U_N | U_O | U_P | U_Q | U_R | U_S | U_T | U_U | U_V | U_W | U_X | U_Y | U_Z.

Definition CurrencyCode : Type :=
  UpperCaseLetter * UpperCaseLetter * UpperCaseLetter.

Definition letter_unit (l : UpperCaseLetter) : code_unit :=
  match l with
  | U_A => 65 | U_B => 66 | U_C => 67 | U_D => 68 | U_E => 69 | U_F => 70
  | U_G => 71 | U_H => 72 | U_I => 73 | U_J => 74 | U_K => 75 | U_L => 76
  | U_M => 77 | U_N => 78 | U_O => 79 | U_P => 80 | U_Q => 81 | U_R => 82
  | U_S => 83 | U_T => 84 | U_U => 85 | U_V => 86 | U_W => 87 | U_X => 88
  | U_Y => 89 | U_Z => 90
  end.

(** The string a value of type [CurrencyCode] is at run time. *)
Definition CurrencyCode_string (c : CurrencyCode) : jsstring :=
  let '(a, b, d) := c in [letter_unit a; letter_unit b; letter_unit d].

Definition is_upper (c : code_unit) : bool := (65 <=? c) && (c <=? 90).

(** Exactly three upper-case ASCII letters. *)
Definition is_CurrencyCode (s : jsstring) : bool :=
  match s with
  | [a; b; c] => is_upper a && is_upper b && is_upper c
  | _ => false
  end.

Section Classes.
Context {host : Host}.

(** [constructor(code: CurrencyCode) { this._code = code; }]
    Types are erased when the program runs: the constructor receives a
    string and stores it. *)
Definition Currency_new (code : jsstring) : M loc :=
  alloc (OCurrency {| _code := code |}).

(** [get code()] *)
Definition Currency_code (this : loc) : M jsstring :=
  c ← the_Currency this; mret (_code c).

(** [toString] *)
Definition Currency_toString (this : loc) : M jsstring :=
  c ← the_Currency this; mret (_code c).

(* ===================================================================== *)
(** ** Money *)
(* ===================================================================== *)

(** [constructor(amount: number, currency: Currency)]
<<
    if (amount < 0) throw new Error(`Amount cannot be negative: ${amount}`);
    this._amount = amount;
    this._currency = currency;
>> *)
Definition Money_new (amount : number) (currency : loc) : M loc :=
  if Number.ltb amount Number.zero
  then throw (Error (lit "Amount cannot be negative: " ++ Number_toString amount))
  else alloc (OMoney {| _amount := amount; _currency := currency |}).

(** [get amount()], [get currency()] *)
Definition Money_amount (this : loc) : M number :=
  m ← the_Money this; mret (_amount m).

Definition Money_currency (this : loc) : M loc :=
  m ← the_Money this; mret (_currency m).

(** [add = (other: Money): Money]
<<
    if (this._currency.code !== other.currency.code)
        throw new Error(`Cannot add amounts with different currencies: ${this._currency.code} and ${other.currency.code}`);
    return new Money(this._amount + other.amount, this._currency);
>> *)
Definition Money_add (this other : loc) : M loc :=
  self ← the_Money this;
  c1 ← Currency_code (_currency self);
  oc ← Money_currency other;
  c2 ← Currency_code oc;
  if bool_decide (c1 ≠ c2)
  then throw (Error (lit "Cannot add amounts with different currencies: "
                       ++ c1 ++ lit " and " ++ c2))
  else
    oa ← Money_amount other;
    Money_new (Number.add (_amount self) oa) (_currency self).

(** [multiply = (factor: number): Money]
<<
    if (factor < 0) throw new Error(`Factor cannot be negative: ${factor}`);
    return new Money(this._amount * factor, this._currency);
>> *)
Definition Money_multiply (this : loc) (factor : number) : M loc :=
  if Number.ltb factor Number.zero
  then throw (Error (lit "Factor cannot be negative: " ++ Number_toString factor))
  else
    self ← the_Money this;
    Money_new (Number.mul (_amount self) factor) (_currency self).

(* ===================================================================== *)
(** ** Customer *)
(* ===================================================================== *)

(** [crypto.randomUUID()] *)
Definition crypto_randomUUID : M jsstring := fun w =>
  (Normal (randomUUID (drawn w)), {| heap := heap w; drawn := S (drawn w) |}).

(** [constructor(name: string)], with [blank name] for the condition
    [!name || name.trim().length === 0].
<<
    if(!name || name.trim().length === 0) throw new Error("Name cannot be empty");
    this._id = crypto.randomUUID();
    this._name = name;
    this._lastOrderPrice = null;
>> *)
Definition blank (name : jsstring) : bool :=
  negb (truthy_string name) || (length (trim name) =? 0)%nat.

Definition Customer_new (name : jsstring) : M loc :=
  if blank name
  then throw (Error (lit "Name cannot be empty"))
  else
    id ← crypto_randomUUID;
    alloc (OCustomer {| _id := id; _name := name; _lastOrderPrice := None |}).

(** [get id()], [get name()], [get lastOrderPrice()] *)
Definition Customer_id (this : loc) : M jsstring :=
  c ← the_Customer this; mret (_id c).

Definition Customer_name (this : loc) : M jsstring :=
  c ← the_Customer this; mret (_name c).

Definition Customer_lastOrderPrice (this : loc) : M (option loc) :=
  c ← the_Customer this; mret (_lastOrderPrice c).

(** [set lastOrderPrice(value: Money) { this._lastOrderPrice = value; }] *)
Definition Customer_set_lastOrderPrice (this value : loc) : M unit :=
  c ← the_Customer this;
  store this (OCustomer {| _id := _id c; _name := _name c;
                           _lastOrderPrice := Some value |}).

(* ===================================================================== *)
(** ** DateTime *)
(* ===================================================================== *)

(** A [Date] object, by its time value. *)
Record Date := { getTime : option Z }.

Record DateTime := { _date : Date }.

(** The optional constructor argument, [value?: Date | string]. *)
Inductive DateArg :=
| ADate (d : Date)
| AString (s : jsstring).

(** ToBoolean: an object is truthy, a string is truthy unless empty. *)
Definition truthy (v : DateArg) : bool :=
  match v with
  | ADate _ => true
  | AString s => truthy_string s
  end.

(** [new Date(value)]: a copy of a date, or the parse of a string. *)
Definition Date_of (v : DateArg) : Date :=
  match v with
  | ADate d => {| getTime := getTime d |}
  | AString s => {| getTime := Date_parse s |}
  end.

(** [${value}] *)
Definition DateArg_toString (v : DateArg) : jsstring :=
  match v with
  | ADate d => Date_toString (getTime d)
  | AString s => s
  end.

(** [constructor(value?: Date | string)], where [clock] is the instant
    [new Date()] reads on its first line. The constructor touches no other
    object, so it is a function of the clock and the argument.
<<
    const now = new Date();
    if (value) {
        const parsedDate = new Date(value);
        if (isNaN(parsedDate.getTime())) throw new Error(`Invalid date format: ${value}.`);
        if (parsedDate > now) throw new Error(`Date cannot be in the future: ${value}.`);
        this._date = parsedDate;
    } else this._date = now;
>> *)
Definition DateTime_new (clock : Z) (value : option DateArg)
  : Completion DateTime :=
  let now := {| getTime := Some clock |} in
  match value with
  | Some v =>
      if truthy v then
        let parsedDate := Date_of v in
        match getTime parsedDate with
        | None =>
            Throw (Error (lit "Invalid date format: "
                            ++ DateArg_toString v ++ lit "."))
        | Some t =>
            if (clock <? t)%Z
            then Throw (Error (lit "Date cannot be in the future: "
                                 ++ DateArg_toString v ++ lit "."))
            else Normal {| _date := parsedDate |}
        end
      else Normal {| _date := now |}
  | None => Normal {| _date := now |}
  end.

(** [get value()] *)
Definition DateTime_value (this : DateTime) : Date := _date this.

End Classes.

(* ===================================================================== *)
(** ** Client programs used as examples *)
(* ===================================================================== *)

Definition USD : jsstring := lit "USD".
Definition EUR : jsstring := lit "EUR".

(** [new Money(Infinity, new Currency("USD")).multiply(0).amount] *)
Definition infinity_times_zero `{Host} : M number :=
  usd ← Currency_new USD;
  m ← Money_new Number.Infinity usd;
  p ← Money_multiply m Number.zero;
  Money_amount p.

(** [new Money(NaN, new Currency("USD")).amount] *)
Definition money_of_NaN `{Host} : M number :=
  usd ← Currency_new USD;
  m ← Money_new Number.NaN usd;
  Money_amount m.

(** [new Customer(" Jane ")] and then [c.lastOrderPrice = new Money(100, usd)] *)
Definition jane : jsstring := lit " Jane ".

(* ===================================================================== *)
(** ** The public interface as a transition system *)
(* ===================================================================== *)

(** One call a client can make that may change the world. *)
Inductive Call :=
| NewCurrency (code : jsstring)
| NewMoney (amount : number) (currency : loc)
| MoneyAdd (this other : loc)
| MoneyMultiply (this : loc) (factor : number)
| NewCustomer (name : jsstring)
| SetLastOrderPrice (this value : loc).

Definition exec `{Host} (c : Call) (w : World) : World :=
  match c with
  | NewCurrency code => snd (Currency_new code w)
  | NewMoney a cur => snd (Money_new a cur w)
  | MoneyAdd x y => snd (Money_add x y w)
  | MoneyMultiply x f => snd (Money_multiply x f w)
  | NewCustomer name => snd (Customer_new name w)
  | SetLastOrderPrice c v => snd (Customer_set_lastOrderPrice c v w)
  end.

(** The worlds a program can be in: any sequence of calls from the empty
    heap, whether the calls return or throw. *)
Inductive reachable `{Host} : World -> Prop :=
| reachable_empty : reachable empty_world
| reachable_step w c : reachable w -> reachable (exec c w).

(** Running a list of calls, first to last. *)
Definition exec_all `{Host} (cs : list Call) (w : World) : World :=
  fold_left (fun w c => exec c w) cs w.

(** ** A deterministic host *)

(** The stand-in a test injects for the run time: a parser that knows one
    ISO 8601 string, fixed renderings, and identifiers numbered in the order
    they are drawn. *)
Definition iso_example : jsstring := lit "2023-10-05T14:48:00.000Z".
Definition iso_example_time : Z := 1696517280000.

Definition stub_host : Host := {|
  Number_toString := fun _ => lit "<number>";
  Date_parse := fun s =>
    if bool_decide (s = iso_example) then Some iso_example_time else None;
  Date_toString := fun t =>
    match t with None => lit "Invalid Date" | Some _ => lit "<date>" end;
  randomUUID := fun n => lit "customer-" ++ [48 + N.of_nat n]
|}.

(** A world with two Currency objects of code USD, one of code EUR, three
    Money objects and a Customer:
    [1 = Currency(USD)], [2 = Currency(USD)], [3 = Money(100, 1)],
    [4 = Money(50, 2)], [5 = Currency(EUR)], [6 = Money(7, 5)],
    [7 = Customer(" Jane ")]. *)
Definition sample_calls : list Call :=
  [ NewCurrency USD; NewCurrency USD;
    NewMoney (Number.of_Z 100) 1%positive; NewMoney (Number.of_Z 50) 2%positive;
    NewCurrency EUR; NewMoney (Number.of_Z 7) 5%positive;
    NewCustomer jane ].

Definition sample_world : World := @exec_all stub_host sample_calls empty_world.

(** ** What the invariant says *)

(** The amount of a Money is never below zero. *)
Definition amount_ok (a : number) : Prop := Number.ltb a Number.zero = false.

Definition money_invariant (w : World) : Prop :=
  forall l m, heap w !! l = Some (OMoney m) -> amount_ok (_amount m).

(** [w'] extends [w]: every object of [w] is in [w'], unchanged. *)
Definition extends (w w' : World) : Prop := heap w ⊆ heap w'.

(* ===================================================================== *)
(** ** Money.toString and Number.prototype.toFixed *)
(* ===================================================================== *)

(** The decimal digits of a natural number, most significant first, as
    code units; ["0"] for zero. *)
Fixpoint uint_units (d : Decimal.uint) : jsstring :=
  match d with
  | Decimal.Nil => []
  | Decimal.D0 r => 48 :: uint_units r
  | Decimal.D1 r => 49 :: uint_units r
  | Decimal.D2 r => 50 :: uint_units r
  | Decimal.D3 r => 51 :: uint_units r
  | Decimal.D4 r => 52 :: uint_units r
  | Decimal.D5 r => 53 :: uint_units r
  | Decimal.D6 r => 54 :: uint_units r
  | Decimal.D7 r => 55 :: uint_units r
  | Decimal.D8 r => 56 :: uint_units r
  | Decimal.D9 r => 57 :: uint_units r
  end.

Definition decimal (n : N) : jsstring := uint_units (N.to_uint n).

(** Reading a string of decimal digits back; [None] if a code unit is not
    a digit. *)
Definition digit_value (c : code_unit) : option N :=
  if (48 <=? c) && (c <=? 57) then Some (c - 48) else None.

Fixpoint decimal_value_from (acc : N) (u : jsstring) : option N :=
  match u with
  | [] => Some acc
  | c :: r =>
      match digit_value c with
      | Some d => decimal_value_from (10 * acc + d) r
      | None => None
      end
  end.

Definition decimal_value (u : jsstring) : option N := decimal_value_from 0 u.

Definition is_digit (c : code_unit) : bool := (48 <=? c) && (c <=? 57).

Module ToFixed.

(** The positive finite number [m * 2^e] as a fraction of integers with a
    positive denominator. *)
Definition numerator (m : positive) (e : Z) : Z :=
  if (0 <=? e)%Z then (Z.pos m * 2 ^ e)%Z else Z.pos m.

Definition denominator (e : Z) : Z :=
  if (0 <=? e)%Z then 1%Z else (2 ^ (- e))%Z.

(** [m * 2^e >= 10^21] *)
Definition at_least_1e21 (m : positive) (e : Z) : bool :=
  (10 ^ 21 * denominator e <=? numerator m e)%Z.

(** The integer [n] for which [n / 10^f - m * 2^e] is as close to zero as
    possible, the larger one if there are two: the floor of
    [m * 2^e * 10^f + 1/2]. *)
Definition nearest (m : positive) (e : Z) (f : nat) : N :=
  Z.to_N ((2 * numerator m e * 10 ^ Z.of_nat f + denominator e)
            / (2 * denominator e)).

(** The digits of [n] with a decimal point before the last [f] of them,
    padded with zeros on the left so that a digit stands before the point. *)
Definition point (n : N) (f : nat) : jsstring :=
  let m := decimal n in
  let k := length m in
  let m := if (k <=? f)%nat then repeat 48 (f + 1 - k)%nat ++ m else m in
  let k := length m in
  if (f =? 0)%nat then m
  else take (k - f)%nat m ++ lit "." ++ drop (k - f)%nat m.

(** The numbers [toFixed] writes out digit by digit: the finite ones below
    [10^21] in magnitude. *)
Definition in_range (x : number) : bool :=
  match x with
  | S754_zero _ => true
  | S754_finite _ m e => negb (at_least_1e21 m e)
  | S754_infinity _ | S754_nan => false
  end.

(** The integer whose digits [toFixed(f)] writes for such a number. *)
Definition scaled (x : number) (f : nat) : N :=
  match x with
  | S754_finite _ m e => nearest m e f
  | _ => 0
  end.

End ToFixed.

Section MoneyToString.
Context {host : Host}.

(** [Number.prototype.toFixed(fractionDigits)], for [fractionDigits] within
    0..100 (the call in the source passes 2): a number that is not finite, or
    is at least [10^21] in magnitude, is rendered as by ToString; otherwise
    the nearest multiple of [10^-f] is written out with [f] digits after the
    point, after a minus sign if the number is below zero. *)
Definition Number_toFixed (x : number) (f : nat) : jsstring :=
  match x with
  | S754_nan | S754_infinity _ => Number_toString x
  | S754_zero _ => ToFixed.point 0 f
  | S754_finite s m e =>
      (if s then lit "-" else [])
        ++ (if ToFixed.at_least_1e21 m e
            then Number_toString (S754_finite false m e)
            else ToFixed.point (ToFixed.nearest m e f) f)
  end.

(** [toString(): string]
<<
    return `${this._currency.code} ${this._amount.toFixed(2)}`;
>> *)
Definition Money_toString (this : loc) : M jsstring :=
  self ← the_Money this;
  c ← Currency_code (_currency self);
  mret (c ++ lit " " ++ Number_toFixed (_amount self) 2).

End MoneyToString.

(* ===================================================================== *)
(** ** DateTime and the Date object it holds *)
(* ===================================================================== *)

(** A [Date] is a mutable object, and [get value()] returns the one the
    DateTime holds, not a copy. To follow a DateTime after its construction
    the Date objects are therefore kept in a store, by reference, each with
    its current time value. *)
Record DateTimeObject := { _date_ref : loc }.

(** The constructor argument as it is passed: a reference to a Date
    object, or a string. *)
Inductive DateValue :=
| VDate (l : loc)
| VString (s : jsstring).

(** What the constructor reads of its argument: [new Date(value)] takes the
    time value the Date has at that moment. [None] for a reference that
    holds no Date. *)
Definition read_value (dates : gmap loc Date) (value : option DateValue)
  : option (option DateArg) :=
  match value with
  | None => Some None
  | Some (VString s) => Some (Some (AString s))
  | Some (VDate l) =>
      match dates !! l with
      | Some d => Some (Some (ADate d))
      | None => None
      end
  end.

(** [new DateTime(value)] over the store: the checks are those of
    [DateTime_new]; the Date that is kept ([parsedDate] or [now]) is in both
    branches an object the constructor has just made. *)
Definition DateTime_create `{Host} (clock : Z) (value : option DateValue)
    (dates : gmap loc Date) : Completion DateTimeObject * gmap loc Date :=
  match read_value dates value with
  | None => (Throw TypeError, dates)
  | Some arg =>
      match DateTime_new clock arg with
      | Normal d =>
          let l := fresh (dom dates) in
          (Normal {| _date_ref := l |}, <[l := _date d]> dates)
      | Throw e => (Throw e, dates)
      end
  end.

(** [get value(): Date { return this._date; }] *)
Definition DateTime_value_ref (this : DateTimeObject) : loc := _date_ref this.

(** [Date.prototype.setTime], with the new time value already clipped
    ([None] for NaN or an instant out of range). *)
Definition Date_setTime (l : loc) (t : option Z) (dates : gmap loc Date)
  : gmap loc Date :=
  match dates !! l with
  | Some _ => <[l := {| getTime := t |}]> dates
  | None => dates
  end.

(** The one thing [DateTime.toString] takes from the run time: the ISO 8601
    rendering, in UTC, of a valid time value. *)
Class IsoFormat := { iso_string : Z -> jsstring }.

(** What [Date.prototype.toISOString] does: a string, or a [RangeError] when
    the time value is NaN. *)
Inductive IsoResult :=
| IsoString (s : jsstring)
| RangeError.

Definition Date_toISOString `{IsoFormat} (d : Date) : IsoResult :=
  match getTime d with
  | Some t => IsoString (iso_string t)
  | None => RangeError
  end.

(** [toString(): string { return this._date.toISOString(); }]
    [None] if the reference holds no Date. *)
Definition DateTime_toString `{IsoFormat} (this : DateTimeObject)
    (dates : gmap loc Date) : option IsoResult :=
  match dates !! _date_ref this with
  | Some d => Some (Date_toISOString d)
  | None => None
  end.

(* ===================================================================== *)
(** ** Type-correct clients *)
(* ===================================================================== *)

(** A call whose arguments have the classes its TypeScript signature asks
    for, in the world it is made in. *)
Definition well_typed_call (w : World) (c : Call) : Prop :=
  match c with
  | NewCurrency code => is_CurrencyCode code = true
  | NewMoney _ cur => exists c, heap w !! cur = Some (OCurrency c)
  | MoneyAdd x y =>
      (exists m, heap w !! x = Some (OMoney m)) /\
      (exists m, heap w !! y = Some (OMoney m))
  | MoneyMultiply x _ => exists m, heap w !! x = Some (OMoney m)
  | NewCustomer _ => True
  | SetLastOrderPrice c v =>
      (exists cu, heap w !! c = Some (OCustomer cu)) /\
      (exists m, heap w !! v = Some (OMoney m))
  end.

(** The worlds a type-correct program can be in. *)
Inductive reachable_typed `{Host} : World -> Prop :=
| reachable_typed_empty : reachable_typed empty_world
| reachable_typed_step w c :
    reachable_typed w -> well_typed_call w c -> reachable_typed (exec c w).

(** Every reference stored in an object leads to an object of the class
    the field is declared with, and every currency code has the shape of
    its type. *)
Definition well_typed_object (w : World) (o : Obj) : Prop :=
  match o with
  | OCurrency c => is_CurrencyCode (_code c) = true
  | OMoney m => exists c, heap w !! _currency m = Some (OCurrency c)
  | OCustomer cu =>
      match _lastOrderPrice cu with
      | None => True
      | Some v => exists m, heap w !! v = Some (OMoney m)
      end
  end.

Definition well_typed (w : World) : Prop :=
  forall l o, heap w !! l = Some o -> well_typed_object w o.

(* ===================================================================== *)
(** ** Chains of Money operations *)
(* ===================================================================== *)

(** One step of an expression such as [x.add(y).multiply(f).add(z)]. *)
Inductive MoneyOp :=
| AddOp (other : loc)
| MultiplyOp (factor : number).

Definition apply_op `{Host} (x : loc) (op : MoneyOp) : M loc :=
  match op with
  | AddOp y => Money_add x y
  | MultiplyOp f => Money_multiply x f
  end.

(** Each operation is applied to what the one before returned. *)
Fixpoint chain `{Host} (x : loc) (ops : list MoneyOp) : M loc :=
  match ops with
  | [] => mret x
  | op :: rest => y ← apply_op x op; chain y rest
  end.

(* ===================================================================== *)
(** ** Customer identifiers *)
(* ===================================================================== *)

(** Each Customer of the heap carries the identifier of a draw that has
    been made, and no two of them that of the same draw. *)
Definition identifiers_invariant `{Host} (w : World) : Prop :=
  exists draw : loc -> nat,
    (forall l c, heap w !! l = Some (OCustomer c) ->
                 _id c = randomUUID (draw l) /\ (draw l < drawn w)%nat) /\
    (forall l l' c c',
        heap w !! l = Some (OCustomer c) ->
        heap w !! l' = Some (OCustomer c') ->
        l <> l' -> draw l <> draw l').

(** A second Customer in the sample world: [8 = Customer("John Doe")]. *)
Definition two_customers : World :=
  @exec_all stub_host (sample_calls ++ [NewCustomer (lit "John Doe")]) empty_world.

Definition stub_iso : IsoFormat := {| iso_string := fun _ => lit "<iso>" |}.

(* ===================================================================== *)
(** ** Numbers as they occur at run time *)
(* ===================================================================== *)

(** The values of [spec_float] that are binary64 numbers: a finite one has
    its mantissa and exponent in canonical form and within range. *)
Definition is_binary64 (x : number) : bool :=
  valid_binary Number.prec Number.emax x.

Definition one : number := Number.of_Z 1.

(** A list of calls, each type-correct in the world the ones before it
    leave. *)
Fixpoint well_typed_calls `{Host} (w : World) (cs : list Call) : Prop :=
  match cs with
  | [] => True
  | c :: rest => well_typed_call w c /\ well_typed_calls (exec c w) rest
  end.

(** The sample world with two more Money objects:
    [8 = Money(0, 1)] and [9 = Money(NaN, 1)]. *)
Definition odd_amounts : World :=
  @exec_all stub_host
    (sample_calls ++ [NewMoney Number.zero 1%positive; NewMoney Number.NaN 1%positive])
    empty_world.

(* ===================================================================== *)
(** * Properties *)
(* ===================================================================== *)

(** ** Strings *)

Lemma trimStart_nil_iff (s : jsstring) :
  trimStart s = [] <-> forallb is_trimmed s = true.
Proof.
  induction s as [|c r IH]; simpl.
  - tauto.
  - destruct (is_trimmed c); simpl.
    + exact IH.
    + split; discriminate.
Qed.

(** What [trimStart] returns is a suffix of its argument. *)
Lemma trimStart_suffix (s : jsstring) :
  exists p, s = p ++ trimStart s /\ forallb is_trimmed p = true.
Proof.
  induction s as [|c r [p [Hp Hall]]]; simpl.
  - exists []. split; reflexivity.
  - destruct (is_trimmed c) eqn:Hc.
    + exists (c :: p). split.
      * simpl. f_equal. exact Hp.
      * simpl. rewrite Hc. exact Hall.
    + exists []. split; reflexivity.
Qed.

Lemma forallb_rev {A} (f : A -> bool) (l : list A) :
  forallb f (rev l) = forallb f l.
Proof.
  induction l as [|x l IH]; simpl.
  - reflexivity.
  - rewrite forallb_app, IH. simpl. rewrite andb_true_r. apply andb_comm.
Qed.

Lemma trimEnd_nil_iff (s : jsstring) :
  trimEnd s = [] <-> forallb is_trimmed s = true.
Proof.
  unfold trimEnd. rewrite <- (forallb_rev is_trimmed s), <- trimStart_nil_iff.
  split; intros E.
  - apply (f_equal (@rev _)) in E. rewrite rev_involutive in E. exact E.
  - rewrite E. reflexivity.
Qed.

(** The trimmed string is empty exactly when every code unit is white
    space or a line terminator. *)
Lemma trim_nil_iff (s : jsstring) :
  trim s = [] <-> forallb is_trimmed s = true.
Proof.
  unfold trim. rewrite trimEnd_nil_iff.
  destruct (trimStart_suffix s) as [p [Hs Hp]].
  split; intros E.
  - rewrite Hs, forallb_app, Hp, E. reflexivity.
  - rewrite Hs, forallb_app in E. apply andb_true_iff in E. tauto.
Qed.

Lemma blank_iff (name : jsstring) :
  blank name = true <-> name = [] \/ trim name = [].
Proof.
  unfold blank. rewrite orb_true_iff. split; intros [E|E].
  - left. destruct name; [reflexivity | discriminate].
  - right. apply Nat.eqb_eq in E. destruct (trim name); [reflexivity | discriminate].
  - left. rewrite E. reflexivity.
  - right. rewrite E. reflexivity.
Qed.

Lemma blank_all_white (name : jsstring) :
  blank name = true <-> forallb is_trimmed name = true.
Proof.
  rewrite blank_iff, trim_nil_iff. split.
  - intros [E|E]; [rewrite E; reflexivity | exact E].
  - intros E. right. exact E.
Qed.

(** ** Numbers *)

Module NumberFacts.
Import Number.

(** Below zero means a negative infinity or a negative finite number. *)
Lemma ltb_zero (x : number) : ltb x zero = negative x.
Proof. destruct x as [s|s| |s m e]; try destruct s; reflexivity. Qed.

Lemma nonneg_spec (x : number) :
  nonneg x = negb (negative x) && negb (is_nan x).
Proof. destruct x as [s|s| |s m e]; try destruct s; reflexivity. Qed.

(** Not below zero is weaker than at least zero: NaN is neither. *)
Lemma not_ltb_zero (x : number) :
  ltb x zero = false <-> nonneg x = true \/ x = NaN.
Proof.
  rewrite ltb_zero.
  destruct x as [s|s| |s m e]; try destruct s; simpl; split;
    try discriminate; try (intros [?|?]; discriminate);
    try (left; reflexivity); try (right; reflexivity); reflexivity.
Qed.

Lemma nonneg_not_ltb (x : number) : nonneg x = true -> ltb x zero = false.
Proof. intros E. apply not_ltb_zero. left. exact E. Qed.

(** Rounding keeps the sign it is given. *)
Lemma binary_round_aux_negative s m e l :
  negative (binary_round_aux prec emax s m e l) = true -> s = true.
Proof.
  unfold binary_round_aux.
  destruct (shr_fexp prec emax m e l) as [mrs' e'].
  destruct (shr_fexp prec emax _ e' loc_Exact) as [mrs'' e''].
  destruct (shr_m mrs'') as [|p|p]; simpl; try discriminate.
  destruct (Z.leb e'' (Z.sub emax prec)); simpl; auto.
Qed.

Lemma binary_round_negative s m e :
  negative (binary_round prec emax s m e) = true -> s = true.
Proof.
  unfold binary_round.
  destruct (shl_align m e _) as [mz ez].
  apply binary_round_aux_negative.
Qed.

(** The sum of two numbers that are not below zero is not below zero. *)
Lemma add_not_negative (x y : number) :
  negative x = false -> negative y = false -> negative (add x y) = false.
Proof.
  intros Hx Hy.
  destruct x as [sx|sx| |sx mx ex], y as [sy|sy| |sy my ey];
    simpl in Hx, Hy; subst; try reflexivity;
    try (destruct sx; reflexivity); try (destruct sy; reflexivity);
    try (destruct sx, sy; reflexivity).
  unfold add, SFadd, cond_Zopp.
  destruct (negative _) eqn:E; [|reflexivity].
  unfold binary_normalize in E. simpl in E.
  apply binary_round_negative in E. discriminate.
Qed.

(** So is their product. *)
Lemma mul_not_negative (x y : number) :
  negative x = false -> negative y = false -> negative (mul x y) = false.
Proof.
  intros Hx Hy.
  destruct x as [sx|sx| |sx mx ex], y as [sy|sy| |sy my ey];
    simpl in Hx, Hy; subst; try reflexivity.
  unfold mul, SFmul.
  destruct (negative _) eqn:E; [|reflexivity].
  apply binary_round_aux_negative in E. discriminate.
Qed.

(** A finite number times zero is zero. *)
Lemma mul_zero_finite (x f : number) :
  is_finite x = true -> is_zero f = true -> is_zero (mul x f) = true.
Proof.
  destruct x as [sx|sx| |sx mx ex], f as [sf|sf| |sf mf ef];
    try discriminate; try reflexivity; try (destruct sf; discriminate).
Qed.

(** An infinity or NaN times zero is NaN. *)
Lemma mul_zero_not_finite (x f : number) :
  is_finite x = false -> is_zero f = true -> mul x f = NaN.
Proof.
  destruct x as [sx|sx| |sx mx ex], f as [sf|sf| |sf mf ef];
    try discriminate; try reflexivity; try (destruct sf; discriminate).
Qed.
End NumberFacts.

(** ** The heap *)

Lemma fresh_unused (w : World) : heap w !! fresh (dom (heap w)) = None.
Proof. apply not_elem_of_dom. apply is_fresh. Qed.

Lemma extends_refl (w : World) : extends w w.
Proof. unfold extends. reflexivity. Qed.

Lemma extends_lookup (w w' : World) (l : loc) (o : Obj) :
  extends w w' -> heap w !! l = Some o -> heap w' !! l = Some o.
Proof. unfold extends. intros Hsub Hl. eapply lookup_weaken; eassumption. Qed.

(** Allocation returns an unused reference and changes nothing else. *)
Lemma alloc_spec (o : Obj) (w : World) :
  exists l w',
    alloc o w = (Normal l, w') /\ heap w !! l = None /\
    heap w' = <[l := o]> (heap w) /\ drawn w' = drawn w /\ extends w w'.
Proof.
  eexists _, _. split; [reflexivity|].
  pose proof (fresh_unused w) as Hf.
  repeat split; simpl; try assumption.
  unfold extends. simpl. apply insert_subseteq. exact Hf.
Qed.

Lemma alloc_extends (o : Obj) (w : World) : extends w (snd (alloc o w)).
Proof.
  destruct (alloc_spec o w) as (l & w' & E & _ & _ & _ & Hext).
  rewrite E. exact Hext.
Qed.

Lemma the_Money_lookup (w : World) (l : loc) (m : Money) :
  heap w !! l = Some (OMoney m) -> the_Money l w = (Normal m, w).
Proof. unfold the_Money. intros ->. reflexivity. Qed.

Lemma the_Currency_lookup (w : World) (l : loc) (c : Currency) :
  heap w !! l = Some (OCurrency c) -> the_Currency l w = (Normal c, w).
Proof. unfold the_Currency. intros ->. reflexivity. Qed.

Lemma the_Customer_lookup (w : World) (l : loc) (c : Customer) :
  heap w !! l = Some (OCustomer c) -> the_Customer l w = (Normal c, w).
Proof. unfold the_Customer. intros ->. reflexivity. Qed.

(** Reading a reference never changes the world. *)
Lemma the_Money_world (w : World) (l : loc) : snd (the_Money l w) = w.
Proof. unfold the_Money. destruct (heap w !! l) as [[]|]; reflexivity. Qed.

Lemma the_Currency_world (w : World) (l : loc) : snd (the_Currency l w) = w.
Proof. unfold the_Currency. destruct (heap w !! l) as [[]|]; reflexivity. Qed.

Lemma the_Customer_world (w : World) (l : loc) : snd (the_Customer l w) = w.
Proof. unfold the_Customer. destruct (heap w !! l) as [[]|]; reflexivity. Qed.

(** Unfolding the monad. *)
Ltac unmonad :=
  unfold returns, throws, fails, mbind, M_bind, mret, M_ret, throw in *.

(** ** Currency *)

Lemma letter_unit_upper (l : UpperCaseLetter) : is_upper (letter_unit l) = true.
Proof. destruct l; reflexivity. Qed.

Lemma is_upper_letter (c : code_unit) :
  is_upper c = true -> exists l, letter_unit l = c.
Proof.
  unfold is_upper. intros H. apply andb_true_iff in H as [Hlo Hhi].
  apply N.leb_le in Hlo, Hhi.
  assert (Hn : exists k : nat, (k < 26)%nat /\ c = 65 + N.of_nat k).
  { exists (N.to_nat (c - 65)). split; lia. }
  destruct Hn as (k & Hk & ->).
  do 26 (destruct k as [|k];
         [ first [ exists U_A; reflexivity | exists U_B; reflexivity
                 | exists U_C; reflexivity | exists U_D; reflexivity
                 | exists U_E; reflexivity | exists U_F; reflexivity
                 | exists U_G; reflexivity | exists U_H; reflexivity
                 | exists U_I; reflexivity | exists U_J; reflexivity
                 | exists U_K; reflexivity | exists U_L; reflexivity
                 | exists U_M; reflexivity | exists U_N; reflexivity
                 | exists U_O; reflexivity | exists U_P; reflexivity
                 | exists U_Q; reflexivity | exists U_R; reflexivity
                 | exists U_S; reflexivity | exists U_T; reflexivity
                 | exists U_U; reflexivity | exists U_V; reflexivity
                 | exists U_W; reflexivity | exists U_X; reflexivity
                 | exists U_Y; reflexivity | exists U_Z; reflexivity ] | ]).
  lia.
Qed.

(** The strings of type [CurrencyCode] are exactly the strings of three
    upper-case letters. *)
Lemma is_CurrencyCode_iff (s : jsstring) :
  is_CurrencyCode s = true <-> exists c : CurrencyCode, CurrencyCode_string c = s.
Proof.
  split.
  - destruct s as [|a [|b [|c [|d r]]]]; simpl; try discriminate.
    intros H. apply andb_true_iff in H as [H Hc].
    apply andb_true_iff in H as [Ha Hb].
    apply is_upper_letter in Ha as [la <-], Hb as [lb <-], Hc as [lc <-].
    exists (la, lb, lc). reflexivity.
  - intros [[[a b] c] <-]. simpl. rewrite !letter_unit_upper. reflexivity.
Qed.

Lemma Currency_new_returns (code : jsstring) (w : World) :
  exists l w',
    returns (Currency_new code) w l w' /\ heap w !! l = None /\
    heap w' = <[l := OCurrency {| _code := code |}]> (heap w) /\
    drawn w' = drawn w /\ extends w w'.
Proof. unfold Currency_new, returns. apply alloc_spec. Qed.

Lemma Currency_new_extends (code : jsstring) (w : World) :
  extends w (snd (Currency_new code w)).
Proof. unfold Currency_new. apply alloc_extends. Qed.

Lemma Currency_code_lookup (w : World) (l : loc) (c : Currency) :
  heap w !! l = Some (OCurrency c) -> returns (Currency_code l) w (_code c) w.
Proof.
  intros Hl. unfold Currency_code. unmonad.
  rewrite (the_Currency_lookup _ _ _ Hl). reflexivity.
Qed.

(** C1, as stated, does not hold: the constructor checks nothing when the
    program runs. ["usd"] is not three upper-case letters, and
    [new Currency("usd")] returns a Currency whose code is ["usd"]. *)
Lemma Currency_new_lowercase_accepted :
  is_CurrencyCode (lit "usd") = false /\
  ~ fails (Currency_new (lit "usd")) empty_world /\
  exists l w',
    returns (Currency_new (lit "usd")) empty_world l w' /\
    returns (Currency_code l) w' (lit "usd") w'.
Proof.
  split; [reflexivity|]. split.
  - intros [e He]. discriminate He.
  - eexists _, _. split; reflexivity.
Qed.

(** C1, amended: constructing a Currency never fails at run time. For
    every string [code], [new Currency(code)] returns a fresh object whose
    [code] getter returns [code]; this covers every code of three upper-case
    letters, and those are exactly the strings the compile-time type
    [CurrencyCode] admits. *)
Theorem Currency_new_code :
  (forall (code : jsstring) (w : World),
      ~ fails (Currency_new code) w /\
      exists l w',
        returns (Currency_new code) w l w' /\ heap w !! l = None /\
        extends w w' /\ returns (Currency_code l) w' code w') /\
  (forall s : jsstring,
      is_CurrencyCode s = true <-> exists c : CurrencyCode, CurrencyCode_string c = s).
Proof.
  split; [|apply is_CurrencyCode_iff].
  intros code w. split.
  - intros [e He]. discriminate He.
  - destruct (Currency_new_returns code w) as (l & w' & Hr & Hf & Hh & _ & Hext).
    exists l, w'. repeat split; try assumption.
    apply (Currency_code_lookup w' l {| _code := code |}).
    rewrite Hh. apply lookup_insert_eq.
Qed.

(** ** Money *)

Section MoneyFacts.
Context {host : Host}.

Lemma Money_new_throws (a : number) (cur : loc) (w : World) :
  Number.ltb a Number.zero = true ->
  throws (Money_new a cur) w
         (lit "Amount cannot be negative: " ++ Number_toString a).
Proof. intros Ha. unfold Money_new. rewrite Ha. reflexivity. Qed.

Lemma Money_new_returns (a : number) (cur : loc) (w : World) :
  Number.ltb a Number.zero = false ->
  exists l w',
    returns (Money_new a cur) w l w' /\ heap w !! l = None /\
    heap w' = <[l := OMoney {| _amount := a; _currency := cur |}]> (heap w) /\
    drawn w' = drawn w /\ extends w w'.
Proof. intros Ha. unfold Money_new, returns. rewrite Ha. apply alloc_spec. Qed.

Lemma Money_new_extends (a : number) (cur : loc) (w : World) :
  extends w (snd (Money_new a cur w)).
Proof.
  unfold Money_new. destruct (Number.ltb a Number.zero).
  - apply extends_refl.
  - apply alloc_extends.
Qed.

Lemma Money_amount_lookup (w : World) (l : loc) (m : Money) :
  heap w !! l = Some (OMoney m) -> returns (Money_amount l) w (_amount m) w.
Proof.
  intros Hl. unfold Money_amount. unmonad.
  rewrite (the_Money_lookup _ _ _ Hl). reflexivity.
Qed.

Lemma Money_currency_lookup (w : World) (l : loc) (m : Money) :
  heap w !! l = Some (OMoney m) -> returns (Money_currency l) w (_currency m) w.
Proof.
  intros Hl. unfold Money_currency. unmonad.
  rewrite (the_Money_lookup _ _ _ Hl). reflexivity.
Qed.

(** C4: constructing a Money fails, with the message
    "Amount cannot be negative: <amount>", exactly when [amount < 0]; for
    every [amount >= 0] and every currency it returns a new object that
    stores that amount and that currency reference. *)
Theorem Money_new_spec (a : number) (cur : loc) (w : World) :
  (fails (Money_new a cur) w <-> Number.ltb a Number.zero = true) /\
  (Number.ltb a Number.zero = true ->
     throws (Money_new a cur) w
            (lit "Amount cannot be negative: " ++ Number_toString a)) /\
  (Number.nonneg a = true ->
     exists l w',
       returns (Money_new a cur) w l w' /\ heap w !! l = None /\
       heap w' = <[l := OMoney {| _amount := a; _currency := cur |}]> (heap w) /\
       returns (Money_amount l) w' a w' /\
       returns (Money_currency l) w' cur w').
Proof.
  split; [|split].
  - split.
    + intros [e He]. destruct (Number.ltb a Number.zero) eqn:Ha; [reflexivity|].
      destruct (Money_new_returns a cur w Ha) as (l & w' & Hr & _).
      rewrite Hr in He. discriminate He.
    + intros Ha. exists (Error (lit "Amount cannot be negative: " ++ Number_toString a)).
      rewrite (Money_new_throws a cur w Ha). reflexivity.
  - apply Money_new_throws.
  - intros Ha. apply NumberFacts.nonneg_not_ltb in Ha.
    destruct (Money_new_returns a cur w Ha) as (l & w' & Hr & Hf & Hh & _ & _).
    assert (Hl : heap w' !! l = Some (OMoney {| _amount := a; _currency := cur |})).
    { rewrite Hh. apply lookup_insert_eq. }
    exists l, w'. repeat split; try assumption.
    + apply (Money_amount_lookup w' l _ Hl).
    + apply (Money_currency_lookup w' l _ Hl).
Qed.

(** *** add *)

Lemma Money_add_unfold (w : World) (x y : loc) (mx my : Money) (cx cy : Currency) :
  heap w !! x = Some (OMoney mx) ->
  heap w !! y = Some (OMoney my) ->
  heap w !! _currency mx = Some (OCurrency cx) ->
  heap w !! _currency my = Some (OCurrency cy) ->
  Money_add x y w =
    if bool_decide (_code cx ≠ _code cy)
    then (Throw (Error (lit "Cannot add amounts with different currencies: "
                          ++ _code cx ++ lit " and " ++ _code cy)), w)
    else Money_new (Number.add (_amount mx) (_amount my)) (_currency mx) w.
Proof.
  intros Hx Hy Hcx Hcy.
  unfold Money_add, Currency_code, Money_currency, Money_amount. unmonad.
  rewrite (the_Money_lookup _ _ _ Hx), (the_Currency_lookup _ _ _ Hcx),
    (the_Money_lookup _ _ _ Hy), (the_Currency_lookup _ _ _ Hcy).
  destruct (bool_decide (_code cx ≠ _code cy)); cbv beta iota; [reflexivity|].
  rewrite (the_Money_lookup _ _ _ Hy). reflexivity.
Qed.

Lemma sum_amount_ok (a b : number) :
  amount_ok a -> amount_ok b -> amount_ok (Number.add a b).
Proof.
  unfold amount_ok. rewrite !NumberFacts.ltb_zero.
  apply NumberFacts.add_not_negative.
Qed.

Lemma product_amount_ok (a f : number) :
  amount_ok a -> Number.ltb f Number.zero = false -> amount_ok (Number.mul a f).
Proof.
  unfold amount_ok. rewrite !NumberFacts.ltb_zero.
  apply NumberFacts.mul_not_negative.
Qed.

(** C2: for two Money objects [x] and [y], [x.add(y)] fails exactly when
    their currency codes differ; when the codes are equal it returns a new
    Money whose amount is [x.amount + y.amount] and whose currency is the
    very reference [x] holds. *)
Theorem Money_add_spec (w : World) (x y : loc) (mx my : Money) (cx cy : Currency) :
  heap w !! x = Some (OMoney mx) ->
  heap w !! y = Some (OMoney my) ->
  heap w !! _currency mx = Some (OCurrency cx) ->
  heap w !! _currency my = Some (OCurrency cy) ->
  amount_ok (_amount mx) ->
  amount_ok (_amount my) ->
  (fails (Money_add x y) w <-> _code cx ≠ _code cy) /\
  (_code cx ≠ _code cy ->
     throws (Money_add x y) w
            (lit "Cannot add amounts with different currencies: "
               ++ _code cx ++ lit " and " ++ _code cy)) /\
  (_code cx = _code cy ->
     exists r w',
       returns (Money_add x y) w r w' /\ heap w !! r = None /\
       heap w' = <[r := OMoney {| _amount := Number.add (_amount mx) (_amount my);
                                  _currency := _currency mx |}]> (heap w)).
Proof.
  intros Hx Hy Hcx Hcy Hax Hay.
  pose proof (Money_add_unfold w x y mx my cx cy Hx Hy Hcx Hcy) as E.
  pose proof (sum_amount_ok _ _ Hax Hay) as Hsum.
  destruct (Money_new_returns _ (_currency mx) w Hsum)
    as (r & w' & Hr & Hf & Hh & _ & _).
  split; [|split].
  - unfold fails. rewrite E. case_bool_decide as Hne.
    + split; [intros _; exact Hne | intros _; eexists; reflexivity].
    + split.
      * intros [e He]. rewrite Hr in He. discriminate He.
      * intros Hne'. contradiction.
  - intros Hne. unfold throws. rewrite E, bool_decide_true by exact Hne. reflexivity.
  - intros Heq. exists r, w'. unfold returns. rewrite E, bool_decide_false by auto.
    repeat split; assumption.
Qed.

(** *** multiply *)

Lemma Money_multiply_unfold (w : World) (x : loc) (mx : Money) (f : number) :
  heap w !! x = Some (OMoney mx) ->
  Number.ltb f Number.zero = false ->
  Money_multiply x f w = Money_new (Number.mul (_amount mx) f) (_currency mx) w.
Proof.
  intros Hx Hf. unfold Money_multiply. rewrite Hf. unmonad.
  rewrite (the_Money_lookup _ _ _ Hx). reflexivity.
Qed.

Lemma Money_multiply_throws (w : World) (x : loc) (f : number) :
  Number.ltb f Number.zero = true ->
  throws (Money_multiply x f) w
         (lit "Factor cannot be negative: " ++ Number_toString f).
Proof. intros Hf. unfold Money_multiply. rewrite Hf. reflexivity. Qed.

(** C3, as stated, does not hold for an infinite amount: [Infinity] is a
    legal amount ([Infinity < 0] is false), [0] is a legal factor, and
    [new Money(Infinity, usd).multiply(0)] is a Money whose amount is
    [NaN], not zero. *)
Lemma Money_multiply_zero_not_zero :
  Number.nonneg Number.Infinity = true /\
  Number.is_zero (Number.mul Number.Infinity Number.zero) = false /\
  forall host' : Host,
    fst (@infinity_times_zero host' empty_world) = Normal Number.NaN.
Proof. split; [reflexivity|]. split; [reflexivity|]. intros host'. reflexivity. Qed.

(** C3, amended: for a Money object [x] and a number [f], [x.multiply(f)]
    fails, with the message "Factor cannot be negative: <f>", exactly when
    [f < 0]; otherwise (so for every [f >= 0]) it returns a new Money with
    amount [x.amount * f] and the currency reference of [x]. [f = 0] is
    legal, and yields a zero amount whenever [x.amount] is finite; for an
    infinite or NaN amount it yields [NaN]. *)
Theorem Money_multiply_spec (w : World) (x : loc) (mx : Money) (f : number) :
  heap w !! x = Some (OMoney mx) ->
  amount_ok (_amount mx) ->
  (fails (Money_multiply x f) w <-> Number.ltb f Number.zero = true) /\
  (Number.ltb f Number.zero = true ->
     throws (Money_multiply x f) w
            (lit "Factor cannot be negative: " ++ Number_toString f)) /\
  (Number.ltb f Number.zero = false ->
     exists r w',
       returns (Money_multiply x f) w r w' /\ heap w !! r = None /\
       heap w' = <[r := OMoney {| _amount := Number.mul (_amount mx) f;
                                  _currency := _currency mx |}]> (heap w)) /\
  (Number.nonneg f = true -> Number.ltb f Number.zero = false) /\
  (Number.is_zero f = true ->
     Number.ltb f Number.zero = false /\
     (Number.is_finite (_amount mx) = true ->
      Number.is_zero (Number.mul (_amount mx) f) = true) /\
     (Number.is_finite (_amount mx) = false ->
      Number.mul (_amount mx) f = Number.NaN)).
Proof.
  intros Hx Hax.
  assert (Hret : Number.ltb f Number.zero = false ->
     exists r w',
       returns (Money_multiply x f) w r w' /\ heap w !! r = None /\
       heap w' = <[r := OMoney {| _amount := Number.mul (_amount mx) f;
                                  _currency := _currency mx |}]> (heap w)).
  { intros Hf.
    destruct (Money_new_returns _ (_currency mx) w (product_amount_ok _ _ Hax Hf))
      as (r & w' & Hr & Hfresh & Hh & _ & _).
    exists r, w'. unfold returns.
    rewrite (Money_multiply_unfold w x mx f Hx Hf). repeat split; assumption. }
  split; [|split; [|split; [|split]]].
  - split.
    + intros [e He]. destruct (Number.ltb f Number.zero) eqn:Hf; [reflexivity|].
      destruct (Hret eq_refl) as (r & w' & Hr & _).
      rewrite Hr in He. discriminate He.
    + intros Hf. eexists. rewrite (Money_multiply_throws w x f Hf). reflexivity.
  - apply Money_multiply_throws.
  - exact Hret.
  - apply NumberFacts.nonneg_not_ltb.
  - intros Hz. split; [|split].
    + destruct f as [s|s| |s m e]; try reflexivity; destruct s; discriminate Hz.
    + intros Hfin. apply NumberFacts.mul_zero_finite; assumption.
    + intros Hinf. apply NumberFacts.mul_zero_not_finite; assumption.
Qed.

(** *** The receiver is left alone *)

(** Getters read the heap and leave the world as it is. *)
Lemma Currency_code_world (w : World) (l : loc) : snd (Currency_code l w) = w.
Proof.
  unfold Currency_code. unmonad. pose proof (the_Currency_world w l) as Hw.
  destruct (the_Currency l w) as [[c|e] w1]; exact Hw.
Qed.

Lemma Money_currency_world (w : World) (l : loc) : snd (Money_currency l w) = w.
Proof.
  unfold Money_currency. unmonad. pose proof (the_Money_world w l) as Hw.
  destruct (the_Money l w) as [[c|e] w1]; exact Hw.
Qed.

Lemma Money_amount_world (w : World) (l : loc) : snd (Money_amount l w) = w.
Proof.
  unfold Money_amount. unmonad. pose proof (the_Money_world w l) as Hw.
  destruct (the_Money l w) as [[c|e] w1]; exact Hw.
Qed.

(** What [add] does to the world, whatever its arguments: it throws and
    leaves the world alone, or it is one call of the constructor. *)
Lemma Money_add_world (w : World) (x y : loc) :
  (exists e, Money_add x y w = (Throw e, w)) \/
  (exists a cur, Money_add x y w = Money_new a cur w).
Proof.
  unfold Money_add. unmonad.
  pose proof (the_Money_world w x) as H1.
  destruct (the_Money x w) as [[mx|e] w1]; simpl in H1; subst w1;
    [|left; eexists; reflexivity].
  pose proof (Currency_code_world w (_currency mx)) as H2.
  destruct (Currency_code (_currency mx) w) as [[c1|e] w2]; simpl in H2; subst w2;
    [|left; eexists; reflexivity].
  pose proof (Money_currency_world w y) as H3.
  destruct (Money_currency y w) as [[oc|e] w3]; simpl in H3; subst w3;
    [|left; eexists; reflexivity].
  pose proof (Currency_code_world w oc) as H4.
  destruct (Currency_code oc w) as [[c2|e] w4]; simpl in H4; subst w4;
    [|left; eexists; reflexivity].
  destruct (bool_decide (c1 ≠ c2)); cbv beta iota; [left; eexists; reflexivity|].
  pose proof (Money_amount_world w y) as H5.
  destruct (Money_amount y w) as [[oa|e] w5]; simpl in H5; subst w5;
    [|left; eexists; reflexivity].
  right. eexists _, _. reflexivity.
Qed.

Lemma Money_multiply_world (w : World) (x : loc) (f : number) :
  (exists e, Money_multiply x f w = (Throw e, w)) \/
  (exists a cur, Money_multiply x f w = Money_new a cur w).
Proof.
  unfold Money_multiply.
  destruct (Number.ltb f Number.zero); [left; eexists; reflexivity|].
  unmonad. pose proof (the_Money_world w x) as H1.
  destruct (the_Money x w) as [[mx|e] w1]; simpl in H1; subst w1;
    [|left; eexists; reflexivity].
  right. eexists _, _. reflexivity.
Qed.

Lemma Money_add_extends (w : World) (x y : loc) :
  extends w (snd (Money_add x y w)).
Proof.
  destruct (Money_add_world w x y) as [[e E] | (a & cur & E)]; rewrite E.
  - apply extends_refl.
  - apply Money_new_extends.
Qed.

Lemma Money_multiply_extends (w : World) (x : loc) (f : number) :
  extends w (snd (Money_multiply x f w)).
Proof.
  destruct (Money_multiply_world w x f) as [[e E] | (a & cur & E)]; rewrite E.
  - apply extends_refl.
  - apply Money_new_extends.
Qed.

Lemma Money_new_fresh (a : number) (cur : loc) (w : World) (r : loc) (w' : World) :
  returns (Money_new a cur) w r w' -> heap w !! r = None.
Proof.
  unfold returns, Money_new. destruct (Number.ltb a Number.zero).
  - discriminate.
  - unfold alloc. intros E. injection E as <- _. apply fresh_unused.
Qed.

Lemma Money_add_fresh (w : World) (x y r : loc) (w' : World) :
  returns (Money_add x y) w r w' -> heap w !! r = None.
Proof.
  unfold returns. intros Hr.
  destruct (Money_add_world w x y) as [[e E] | (a & cur & E)]; rewrite E in Hr.
  - discriminate.
  - eapply Money_new_fresh. exact Hr.
Qed.

Lemma Money_multiply_fresh (w : World) (x : loc) (f : number) (r : loc) (w' : World) :
  returns (Money_multiply x f) w r w' -> heap w !! r = None.
Proof.
  unfold returns. intros Hr.
  destruct (Money_multiply_world w x f) as [[e E] | (a & cur & E)]; rewrite E in Hr.
  - discriminate.
  - eapply Money_new_fresh. exact Hr.
Qed.

(** What staying in an extension of the world means for a Money. *)
Lemma Money_kept (w w' : World) (x : loc) (mx : Money) (cx : Currency) :
  heap w !! x = Some (OMoney mx) ->
  heap w !! _currency mx = Some (OCurrency cx) ->
  extends w w' ->
  heap w' !! x = Some (OMoney mx) /\
  heap w' !! _currency mx = Some (OCurrency cx) /\
  returns (Money_amount x) w' (_amount mx) w' /\
  returns (Money_currency x) w' (_currency mx) w'.
Proof.
  intros Hx Hc Hext.
  pose proof (extends_lookup _ _ _ _ Hext Hx) as Hx'.
  pose proof (extends_lookup _ _ _ _ Hext Hc) as Hc'.
  repeat split; try assumption.
  - apply Money_amount_lookup, Hx'.
  - apply Money_currency_lookup, Hx'.
Qed.

(** C9: [x.add(y)] and [x.multiply(f)] leave [x] as it was and return a
    new instance. After the call, whether it returned or threw, [x] is the
    same object with the same amount and the same currency reference, and
    its Currency object is the same too; indeed every object of the heap
    is. For a Money [y] of the same currency code, [x.add(y)] does return,
    and for a factor that is not below zero so does [x.multiply(f)]: the
    result is a reference that was not in use before, so not [x], the heap
    after the call is the heap before it with one Money object more at that
    reference, and [x] is still what it was. *)
Theorem Money_operations_keep_receiver
    (w : World) (x y : loc) (f : number) (mx : Money) (cx : Currency) :
  heap w !! x = Some (OMoney mx) ->
  heap w !! _currency mx = Some (OCurrency cx) ->
  (forall w', w' = snd (Money_add x y w) \/ w' = snd (Money_multiply x f w) ->
     extends w w' /\
     heap w' !! x = Some (OMoney mx) /\
     heap w' !! _currency mx = Some (OCurrency cx) /\
     returns (Money_amount x) w' (_amount mx) w' /\
     returns (Money_currency x) w' (_currency mx) w') /\
  (forall r w', returns (Money_add x y) w r w' -> heap w !! r = None /\ r ≠ x) /\
  (forall r w', returns (Money_multiply x f) w r w' -> heap w !! r = None /\ r ≠ x) /\
  (forall (my : Money) (cy : Currency),
      heap w !! y = Some (OMoney my) ->
      heap w !! _currency my = Some (OCurrency cy) ->
      amount_ok (_amount mx) ->
      amount_ok (_amount my) ->
      _code cx = _code cy ->
      exists r w',
        returns (Money_add x y) w r w' /\
        heap w !! r = None /\ r ≠ x /\
        heap w' = <[r := OMoney {| _amount := Number.add (_amount mx) (_amount my);
                                   _currency := _currency mx |}]> (heap w) /\
        heap w' !! r = Some (OMoney {| _amount := Number.add (_amount mx) (_amount my);
                                       _currency := _currency mx |}) /\
        heap w' !! x = Some (OMoney mx) /\
        returns (Money_amount x) w' (_amount mx) w' /\
        returns (Money_currency x) w' (_currency mx) w') /\
  (amount_ok (_amount mx) ->
   Number.ltb f Number.zero = false ->
   exists r w',
     returns (Money_multiply x f) w r w' /\
     heap w !! r = None /\ r ≠ x /\
     heap w' = <[r := OMoney {| _amount := Number.mul (_amount mx) f;
                                _currency := _currency mx |}]> (heap w) /\
     heap w' !! r = Some (OMoney {| _amount := Number.mul (_amount mx) f;
                                    _currency := _currency mx |}) /\
     heap w' !! x = Some (OMoney mx) /\
     returns (Money_amount x) w' (_amount mx) w' /\
     returns (Money_currency x) w' (_currency mx) w').
Proof.
  intros Hx Hc.
  assert (Hnew : forall a,
    amount_ok a ->
    exists r w',
      returns (Money_new a (_currency mx)) w r w' /\
      heap w !! r = None /\ r ≠ x /\
      heap w' = <[r := OMoney {| _amount := a; _currency := _currency mx |}]> (heap w) /\
      heap w' !! r = Some (OMoney {| _amount := a; _currency := _currency mx |}) /\
      heap w' !! x = Some (OMoney mx) /\
      returns (Money_amount x) w' (_amount mx) w' /\
      returns (Money_currency x) w' (_currency mx) w').
  { intros a Ha.
    destruct (Money_new_returns a (_currency mx) w Ha)
      as (r & w' & Hr & Hf & Hh & _ & Hext).
    destruct (Money_kept w w' x mx cx Hx Hc Hext) as (Hx' & _ & Hamt & Hcur).
    exists r, w'. repeat split; try assumption.
    - intros ->. rewrite Hx in Hf. discriminate.
    - rewrite Hh. apply lookup_insert_eq. }
  split; [|split; [|split; [|split]]].
  - intros w' Hw'.
    assert (Hext : extends w w').
    { destruct Hw' as [-> | ->];
        [apply Money_add_extends | apply Money_multiply_extends]. }
    split; [exact Hext|]. apply (Money_kept w w' x mx cx Hx Hc Hext).
  - intros r w' Hr. pose proof (Money_add_fresh _ _ _ _ _ Hr) as Hf.
    split; [exact Hf|]. intros ->. rewrite Hx in Hf. discriminate.
  - intros r w' Hr. pose proof (Money_multiply_fresh _ _ _ _ _ Hr) as Hf.
    split; [exact Hf|]. intros ->. rewrite Hx in Hf. discriminate.
  - intros my cy Hy Hcy Hax Hay Hcode.
    destruct (Hnew _ (sum_amount_ok _ _ Hax Hay)) as (r & w' & Hr & Hrest).
    exists r, w'. split; [|exact Hrest].
    unfold returns.
    rewrite (Money_add_unfold w x y mx my cx cy Hx Hy Hc Hcy).
    rewrite bool_decide_false by auto. exact Hr.
  - intros Hax Hf.
    destruct (Hnew _ (product_amount_ok _ _ Hax Hf)) as (r & w' & Hr & Hrest).
    exists r, w'. split; [|exact Hrest].
    unfold returns. rewrite (Money_multiply_unfold w x mx f Hx Hf). exact Hr.
Qed.

End MoneyFacts.

(** ** Customer *)

Section CustomerFacts.
Context {host : Host}.

Lemma Customer_new_throws (name : jsstring) (w : World) :
  blank name = true ->
  throws (Customer_new name) w (lit "Name cannot be empty").
Proof. intros Hb. unfold Customer_new. rewrite Hb. reflexivity. Qed.

Lemma Customer_new_returns (name : jsstring) (w : World) :
  blank name = false ->
  exists c w',
    returns (Customer_new name) w c w' /\ heap w !! c = None /\
    heap w' = <[c := OCustomer {| _id := randomUUID (drawn w); _name := name;
                                  _lastOrderPrice := None |}]> (heap w) /\
    drawn w' = S (drawn w) /\ extends w w'.
Proof.
  intros Hb. unfold Customer_new, returns. rewrite Hb.
  unfold crypto_randomUUID. unmonad.
  set (w1 := {| heap := heap w; drawn := S (drawn w) |}).
  destruct (alloc_spec (OCustomer {| _id := randomUUID (drawn w); _name := name;
                                     _lastOrderPrice := None |}) w1)
    as (c & w' & E & Hf & Hh & Hd & Hext).
  exists c, w'. repeat split; assumption.
Qed.

Lemma Customer_new_extends (name : jsstring) (w : World) :
  extends w (snd (Customer_new name w)).
Proof.
  destruct (blank name) eqn:Hb.
  - rewrite (Customer_new_throws name w Hb). apply extends_refl.
  - destruct (Customer_new_returns name w Hb) as (c & w' & E & _ & _ & _ & Hext).
    rewrite E. exact Hext.
Qed.

Lemma Customer_getters (w : World) (c : loc) (cu : Customer) :
  heap w !! c = Some (OCustomer cu) ->
  returns (Customer_id c) w (_id cu) w /\
  returns (Customer_name c) w (_name cu) w /\
  returns (Customer_lastOrderPrice c) w (_lastOrderPrice cu) w.
Proof.
  intros Hc. unfold Customer_id, Customer_name, Customer_lastOrderPrice. unmonad.
  rewrite (the_Customer_lookup _ _ _ Hc). repeat split.
Qed.

Lemma Customer_set_lastOrderPrice_returns (w : World) (c v : loc) (cu : Customer) :
  heap w !! c = Some (OCustomer cu) ->
  Customer_set_lastOrderPrice c v w =
    (Normal tt,
     {| heap := <[c := OCustomer {| _id := _id cu; _name := _name cu;
                                    _lastOrderPrice := Some v |}]> (heap w);
        drawn := drawn w |}).
Proof.
  intros Hc. unfold Customer_set_lastOrderPrice. unmonad.
  rewrite (the_Customer_lookup _ _ _ Hc). reflexivity.
Qed.

(** The setter writes to its receiver, and only if that is a Customer. *)
Lemma Customer_set_lastOrderPrice_world (w : World) (c v : loc) :
  (exists cu, heap w !! c = Some (OCustomer cu) /\
     heap (snd (Customer_set_lastOrderPrice c v w))
       = <[c := OCustomer {| _id := _id cu; _name := _name cu;
                             _lastOrderPrice := Some v |}]> (heap w)) \/
  snd (Customer_set_lastOrderPrice c v w) = w.
Proof.
  destruct (heap w !! c) as [[cur|m|cu]|] eqn:Hc.
  - right. unfold Customer_set_lastOrderPrice, the_Customer. unmonad.
    rewrite Hc. reflexivity.
  - right. unfold Customer_set_lastOrderPrice, the_Customer. unmonad.
    rewrite Hc. reflexivity.
  - left. exists cu. split; [reflexivity|].
    rewrite (Customer_set_lastOrderPrice_returns w c v cu Hc). reflexivity.
  - right. unfold Customer_set_lastOrderPrice, the_Customer. unmonad.
    rewrite Hc. reflexivity.
Qed.

(** *** What a call can do to an object that is already there *)

(** Every call keeps every object as it is, except the setter on its own
    receiver. *)
Lemma exec_keeps (call : Call) (w : World) (l : loc) (o : Obj) :
  heap w !! l = Some o ->
  (forall v, call <> SetLastOrderPrice l v) ->
  heap (exec call w) !! l = Some o.
Proof.
  intros Hl Hnot. destruct call as [code|a cur|x y|x f|name|c v]; unfold exec.
  - eapply extends_lookup; [apply Currency_new_extends | exact Hl].
  - eapply extends_lookup; [apply Money_new_extends | exact Hl].
  - eapply extends_lookup; [apply Money_add_extends | exact Hl].
  - eapply extends_lookup; [apply Money_multiply_extends | exact Hl].
  - eapply extends_lookup; [apply Customer_new_extends | exact Hl].
  - destruct (Customer_set_lastOrderPrice_world w c v) as [(cu & Hc & E) | E];
      rewrite E; [|exact Hl].
    rewrite lookup_insert_ne; [exact Hl|].
    intros ->. apply (Hnot v). reflexivity.
Qed.

Lemma exec_all_keeps (cs : list Call) (w : World) (l : loc) (o : Obj) :
  heap w !! l = Some o ->
  Forall (fun call => forall v, call <> SetLastOrderPrice l v) cs ->
  heap (exec_all cs w) !! l = Some o.
Proof.
  revert w. induction cs as [|call cs IH]; intros w Hl Hcs; simpl.
  - exact Hl.
  - inversion Hcs as [|? ? Hcall Hrest]; subst.
    apply IH; [|exact Hrest]. apply exec_keeps; assumption.
Qed.

(** C7: constructing a Customer fails, with the message
    "Name cannot be empty", exactly when the name is empty or its trimmed
    form is empty, that is when it consists of white space only. When it
    succeeds, [lastOrderPrice] is [null], and stays [null] through every
    sequence of calls that does not assign it. *)
Theorem Customer_new_spec (name : jsstring) (w : World) :
  (fails (Customer_new name) w <-> name = [] \/ trim name = []) /\
  (name = [] \/ trim name = [] <-> forallb is_trimmed name = true) /\
  (name = [] \/ trim name = [] ->
     throws (Customer_new name) w (lit "Name cannot be empty")) /\
  (forall c w', returns (Customer_new name) w c w' ->
     returns (Customer_lastOrderPrice c) w' None w' /\
     forall cs : list Call,
       Forall (fun call => forall v, call <> SetLastOrderPrice c v) cs ->
       returns (Customer_lastOrderPrice c) (exec_all cs w') None (exec_all cs w')).
Proof.
  split; [|split; [|split]].
  - rewrite <- blank_iff. split.
    + intros [e He]. destruct (blank name) eqn:Hb; [reflexivity|].
      destruct (Customer_new_returns name w Hb) as (c & w' & E & _).
      rewrite E in He. discriminate He.
    + intros Hb. eexists. rewrite (Customer_new_throws name w Hb). reflexivity.
  - rewrite <- blank_iff. apply blank_all_white.
  - intros Hb. apply Customer_new_throws, blank_iff, Hb.
  - intros c w' Hr. unfold returns in Hr.
    destruct (blank name) eqn:Hb.
    { rewrite (Customer_new_throws name w Hb) in Hr. discriminate Hr. }
    destruct (Customer_new_returns name w Hb) as (c0 & w0 & E & _ & Hh & _ & _).
    unfold returns in E. rewrite E in Hr. injection Hr as -> ->.
    assert (Hc : heap w' !! c = Some (OCustomer
              {| _id := randomUUID (drawn w); _name := name;
                 _lastOrderPrice := None |})).
    { rewrite Hh. apply lookup_insert_eq. }
    split.
    + apply (Customer_getters w' c _ Hc).
    + intros cs Hcs.
      apply (Customer_getters (exec_all cs w') c
               {| _id := randomUUID (drawn w); _name := name;
                  _lastOrderPrice := None |}).
      apply exec_all_keeps; assumption.
Qed.

Lemma trim_nonempty_not_blank (name : jsstring) :
  trim name <> [] -> blank name = false.
Proof.
  intros Ht. destruct (blank name) eqn:Hb; [|reflexivity].
  apply blank_iff in Hb as [-> | E]; [|contradiction].
  exfalso. apply Ht. reflexivity.
Qed.

(** C10: the constructor stores the name as given, untrimmed: for a name
    whose trimmed form is not empty, [new Customer(name).name] is [name]
    itself. Assigning [lastOrderPrice] on a Customer changes that field of
    that object and nothing else: its [id] and [name], every other object and
    the identifier generator are as before. *)
Theorem Customer_name_stored_and_setter_frame :
  (forall (name : jsstring) (w : World),
      trim name <> [] ->
      exists c w',
        returns (Customer_new name) w c w' /\
        returns (Customer_name c) w' name w') /\
  (forall (w : World) (c v : loc) (cu : Customer),
      heap w !! c = Some (OCustomer cu) ->
      exists w',
        returns (Customer_set_lastOrderPrice c v) w tt w' /\
        returns (Customer_lastOrderPrice c) w' (Some v) w' /\
        returns (Customer_id c) w' (_id cu) w' /\
        returns (Customer_name c) w' (_name cu) w' /\
        drawn w' = drawn w /\
        forall l, l <> c -> heap w' !! l = heap w !! l).
Proof.
  split.
  - intros name w Ht.
    destruct (Customer_new_returns name w (trim_nonempty_not_blank name Ht))
      as (c & w' & E & _ & Hh & _ & _).
    exists c, w'. split; [exact E|].
    apply (Customer_getters w' c {| _id := randomUUID (drawn w); _name := name;
                                    _lastOrderPrice := None |}).
    rewrite Hh. apply lookup_insert_eq.
  - intros w c v cu Hc.
    eexists. split; [apply (Customer_set_lastOrderPrice_returns w c v cu Hc)|].
    set (cu' := {| _id := _id cu; _name := _name cu; _lastOrderPrice := Some v |}).
    set (w' := {| heap := <[c := OCustomer cu']> (heap w); drawn := drawn w |}).
    assert (Hc' : heap w' !! c = Some (OCustomer cu')) by apply lookup_insert_eq.
    destruct (Customer_getters w' c cu' Hc') as (Hid & Hname & Hlast).
    repeat split; try assumption.
    intros l Hne. simpl. apply lookup_insert_ne. congruence.
Qed.

End CustomerFacts.

(** ** The invariant of Money *)

Section Invariant.
Context {host : Host}.

Lemma exec_all_reachable (cs : list Call) (w : World) :
  reachable w -> reachable (exec_all cs w).
Proof.
  revert w. induction cs as [|c cs IH]; intros w Hw; simpl.
  - exact Hw.
  - apply IH. apply reachable_step. exact Hw.
Qed.

(** Putting a new object on the heap keeps the invariant if the object is
    not a Money, or is one with an amount that is not below zero. *)
Lemma alloc_invariant (o : Obj) (w : World) :
  money_invariant w ->
  (forall m, o = OMoney m -> amount_ok (_amount m)) ->
  money_invariant (snd (alloc o w)).
Proof.
  intros Hinv Ho l m. unfold alloc. simpl.
  destruct (decide (fresh (dom (heap w)) = l)) as [<- | Hne].
  - rewrite lookup_insert_eq. intros [= ->]. apply Ho. reflexivity.
  - rewrite lookup_insert_ne by exact Hne. apply Hinv.
Qed.

(** The constructor is the guard: whatever amount it is given, the world
    it leaves satisfies the invariant. *)
Lemma Money_new_invariant (a : number) (cur : loc) (w : World) :
  money_invariant w -> money_invariant (snd (Money_new a cur w)).
Proof.
  intros Hinv. unfold Money_new.
  destruct (Number.ltb a Number.zero) eqn:Ha.
  - exact Hinv.
  - apply alloc_invariant; [exact Hinv|].
    intros m [= <-]. exact Ha.
Qed.

Lemma exec_invariant (call : Call) (w : World) :
  money_invariant w -> money_invariant (exec call w).
Proof.
  intros Hinv. destruct call as [code|a cur|x y|x f|name|c v]; unfold exec.
  - unfold Currency_new. apply alloc_invariant; [exact Hinv | discriminate].
  - apply Money_new_invariant, Hinv.
  - destruct (Money_add_world w x y) as [[e E] | (a & cur & E)]; rewrite E.
    + exact Hinv.
    + apply Money_new_invariant, Hinv.
  - destruct (Money_multiply_world w x f) as [[e E] | (a & cur & E)]; rewrite E.
    + exact Hinv.
    + apply Money_new_invariant, Hinv.
  - destruct (blank name) eqn:Hb.
    + rewrite (Customer_new_throws name w Hb). exact Hinv.
    + unfold Customer_new. rewrite Hb. unfold crypto_randomUUID. unmonad.
      apply (alloc_invariant _ {| heap := heap w; drawn := S (drawn w) |});
        [exact Hinv | discriminate].
  - destruct (Customer_set_lastOrderPrice_world w c v) as [(cu & Hc & E) | E].
    + intros l m. rewrite E.
      destruct (decide (c = l)) as [<- | Hne].
      * rewrite lookup_insert_eq. discriminate.
      * rewrite lookup_insert_ne by exact Hne. apply Hinv.
    + rewrite E. exact Hinv.
Qed.

Lemma reachable_invariant (w : World) : reachable w -> money_invariant w.
Proof.
  induction 1 as [|w c Hw IH].
  - intros l m Hl. simpl in Hl. rewrite lookup_empty in Hl. discriminate.
  - apply exec_invariant, IH.
Qed.

End Invariant.

(** C8, as stated, does not hold: an amount can be [NaN], which is not
    [>= 0]. [Infinity] is an amount [>= 0] and [0] a factor [>= 0], and
    after [new Money(Infinity, usd).multiply(0)] the heap holds a Money
    whose amount is [NaN]. The constructor lets [NaN] through as well, since
    [NaN < 0] is false. *)
Lemma Money_with_NaN_amount_exists :
  Number.nonneg Number.NaN = false /\
  Number.nonneg Number.Infinity = true /\
  Number.nonneg Number.zero = true /\
  forall host : Host,
    let w := @exec_all host [NewCurrency USD; NewMoney Number.Infinity 1%positive;
                             MoneyMultiply 2%positive Number.zero] empty_world in
    @reachable host w /\
    heap w !! 3%positive
      = Some (OMoney {| _amount := Number.NaN; _currency := 1%positive |}) /\
    fst (@money_of_NaN host empty_world) = Normal Number.NaN.
Proof.
  repeat (split; [reflexivity|]). intros host w. split; [|split].
  - apply exec_all_reachable. constructor.
  - reflexivity.
  - reflexivity.
Qed.

(** C8, amended: the amount of a Money that exists is never below zero: it
    is [>= 0] or it is [NaN]. This holds in every world that calls of the
    interface can produce from the empty heap, so after construction and
    after [add] and [multiply], whatever their arguments; nothing is
    clamped, a call either throws or stores the amount it computed. *)
Theorem Money_amount_never_negative `{Host} (w : World) (l : loc) (m : Money) :
  reachable w ->
  heap w !! l = Some (OMoney m) ->
  Number.ltb (_amount m) Number.zero = false /\
  (Number.nonneg (_amount m) = true \/ _amount m = Number.NaN).
Proof.
  intros Hw Hl. pose proof (reachable_invariant w Hw l m Hl) as Hok.
  split; [exact Hok|]. apply NumberFacts.not_ltb_zero. exact Hok.
Qed.

(** ** DateTime *)

Section DateTimeFacts.
Context {host : Host}.

(** A truthy argument that is not a valid date is rejected. *)
Lemma DateTime_new_invalid (clock : Z) (v : DateArg) :
  truthy v = true ->
  getTime (Date_of v) = None ->
  DateTime_new clock (Some v)
    = Throw (Error (lit "Invalid date format: " ++ DateArg_toString v ++ lit ".")).
Proof. intros Hv Ht. unfold DateTime_new. rewrite Hv, Ht. reflexivity. Qed.

(** A truthy argument that is a valid date not after the clock is kept. *)
Lemma DateTime_new_past (clock : Z) (v : DateArg) (t : Z) :
  truthy v = true ->
  getTime (Date_of v) = Some t ->
  (t <= clock)%Z ->
  DateTime_new clock (Some v) = Normal {| _date := Date_of v |}.
Proof.
  intros Hv Ht Hle. unfold DateTime_new. rewrite Hv, Ht.
  destruct (Z.ltb_spec clock t) as [Hlt|_]; [lia | reflexivity].
Qed.

(** With a parser that rejects the empty string, whatever has a time value
    is truthy. *)
Lemma valid_is_truthy (v : DateArg) (t : Z) :
  Date_parse [] = None -> getTime (Date_of v) = Some t -> truthy v = true.
Proof.
  intros Hempty Ht. destruct v as [d|s]; [reflexivity|].
  destruct s as [|c s]; [|reflexivity].
  simpl in Ht. rewrite Hempty in Ht. discriminate Ht.
Qed.

(** C5 fails on the empty string. The empty string is a provided value
    that is not a valid date, but it is falsy, so the test [if (value)]
    sends it down the branch of the omitted argument: the constructor
    returns a DateTime holding the current instant instead of throwing
    "Invalid date format". This is so for every host and every clock. *)
Theorem DateTime_new_empty_string (clock : Z) :
  DateTime_new clock (Some (AString []))
    = Normal {| _date := {| getTime := Some clock |} |}.
Proof. reflexivity. Qed.

(** C6: a provided value whose instant is strictly after the clock read at
    construction is rejected with "Date cannot be in the future: <value>.",
    and with no value the constructor returns a DateTime holding the clock's
    instant. The parser is assumed to reject the empty string, as the one
    behind [new Date(string)] does. *)
Theorem DateTime_new_future (clock : Z) :
  Date_parse [] = None ->
  (forall (v : DateArg) (t : Z),
      getTime (Date_of v) = Some t ->
      (clock < t)%Z ->
      DateTime_new clock (Some v)
        = Throw (Error (lit "Date cannot be in the future: "
                          ++ DateArg_toString v ++ lit "."))) /\
  DateTime_new clock None = Normal {| _date := {| getTime := Some clock |} |}.
Proof.
  intros Hempty. split; [|reflexivity].
  intros v t Ht Hlt. unfold DateTime_new.
  rewrite (valid_is_truthy v t Hempty Ht), Ht.
  destruct (Z.ltb_spec clock t) as [_|Hle]; [reflexivity | lia].
Qed.

End DateTimeFacts.

(* ===================================================================== *)
(** * The properties at work on the sample world *)
(* ===================================================================== *)

Example trim_jane : trim jane = lit "Jane".
Proof. reflexivity. Qed.

Example trim_keeps_inner_space : trim (lit "  John Doe ") = lit "John Doe".
Proof. reflexivity. Qed.

Example blank_examples :
  blank [] = true /\ blank (lit "  ") = true /\ blank [0x3000; 0x000A] = true /\
  blank (lit "Jane") = false.
Proof. repeat split. Qed.

Example hundred_plus_fifty :
  Number.add (Number.of_Z 100) (Number.of_Z 50) = Number.of_Z 150.
Proof. reflexivity. Qed.

Example sample_world_heap :
  heap sample_world !! 3%positive
    = Some (OMoney {| _amount := Number.of_Z 100; _currency := 1%positive |}) /\
  heap sample_world !! 4%positive
    = Some (OMoney {| _amount := Number.of_Z 50; _currency := 2%positive |}) /\
  heap sample_world !! 7%positive
    = Some (OCustomer {| _id := lit "customer-0"; _name := jane;
                         _lastOrderPrice := None |}).
Proof. repeat split. Qed.

(** Money(100, usd).add(Money(50, usd')) with two Currency objects of the
    same code: the sum carries the reference held by the receiver. *)
Lemma Money_add_spec_witness :
  (heap sample_world !! 3%positive
     = Some (OMoney {| _amount := Number.of_Z 100; _currency := 1%positive |}) /\
   heap sample_world !! 4%positive
     = Some (OMoney {| _amount := Number.of_Z 50; _currency := 2%positive |})) /\
  exists r w',
    returns (@Money_add stub_host 3%positive 4%positive) sample_world r w' /\
    heap sample_world !! r = None /\
    heap w' = <[r := OMoney {| _amount := Number.add (Number.of_Z 100) (Number.of_Z 50);
                               _currency := 1%positive |}]> (heap sample_world).
Proof.
  split; [split; reflexivity|].
  refine (proj2 (proj2 (@Money_add_spec stub_host sample_world 3%positive 4%positive
            {| _amount := Number.of_Z 100; _currency := 1%positive |}
            {| _amount := Number.of_Z 50; _currency := 2%positive |}
            {| _code := USD |} {| _code := USD |} _ _ _ _ _ _)) _);
    reflexivity.
Defined.

(** Money(100, usd).multiply(2). *)
Lemma Money_multiply_spec_witness :
  heap sample_world !! 3%positive
    = Some (OMoney {| _amount := Number.of_Z 100; _currency := 1%positive |}) /\
  exists r w',
    returns (@Money_multiply stub_host 3%positive (Number.of_Z 2)) sample_world r w' /\
    heap sample_world !! r = None /\
    heap w' = <[r := OMoney {| _amount := Number.mul (Number.of_Z 100) (Number.of_Z 2);
                               _currency := 1%positive |}]> (heap sample_world).
Proof.
  split; [reflexivity|].
  refine (proj1 (proj2 (proj2 (@Money_multiply_spec stub_host sample_world 3%positive
            {| _amount := Number.of_Z 100; _currency := 1%positive |}
            (Number.of_Z 2) _ _))) _);
    reflexivity.
Defined.

(** Money(100, usd) after [add] and after [multiply]: both return a new
    object, and Money(100, usd) reads as before. *)
Lemma Money_operations_keep_receiver_witness :
  (exists r w',
      returns (@Money_add stub_host 3%positive 4%positive) sample_world r w' /\
      heap sample_world !! r = None /\ r <> 3%positive /\
      heap w' !! r
        = Some (OMoney {| _amount := Number.add (Number.of_Z 100) (Number.of_Z 50);
                          _currency := 1%positive |}) /\
      returns (@Money_amount 3%positive) w' (Number.of_Z 100) w' /\
      returns (@Money_currency 3%positive) w' 1%positive w') /\
  (exists r w',
      returns (@Money_multiply stub_host 3%positive (Number.of_Z 2)) sample_world r w' /\
      heap sample_world !! r = None /\ r <> 3%positive /\
      heap w' !! r
        = Some (OMoney {| _amount := Number.mul (Number.of_Z 100) (Number.of_Z 2);
                          _currency := 1%positive |}) /\
      returns (@Money_amount 3%positive) w' (Number.of_Z 100) w' /\
      returns (@Money_currency 3%positive) w' 1%positive w').
Proof.
  pose proof (@Money_operations_keep_receiver stub_host sample_world
                3%positive 4%positive (Number.of_Z 2)
                {| _amount := Number.of_Z 100; _currency := 1%positive |}
                {| _code := USD |} eq_refl eq_refl) as (_ & _ & _ & Hadd & Hmul).
  split.
  - destruct (Hadd {| _amount := Number.of_Z 50; _currency := 2%positive |}
                {| _code := USD |} eq_refl eq_refl eq_refl eq_refl eq_refl)
      as (r & w' & Hr & Hf & Hne & _ & Hl & _ & Ha & Hc).
    exists r, w'. repeat split; assumption.
  - destruct (Hmul eq_refl eq_refl)
      as (r & w' & Hr & Hf & Hne & _ & Hl & _ & Ha & Hc).
    exists r, w'. repeat split; assumption.
Defined.

(** The amounts in the sample world. *)
Lemma Money_amount_never_negative_witness :
  @reachable stub_host sample_world /\
  Number.ltb (Number.of_Z 100) Number.zero = false /\
  (Number.nonneg (Number.of_Z 100) = true \/ Number.of_Z 100 = Number.NaN).
Proof.
  assert (Hr : @reachable stub_host sample_world).
  { apply exec_all_reachable. apply reachable_empty. }
  split; [exact Hr|].
  exact (@Money_amount_never_negative stub_host sample_world 3%positive
           {| _amount := Number.of_Z 100; _currency := 1%positive |} Hr eq_refl).
Defined.

(** new Money(100, usd) returns, new Money(-5, usd) throws. *)
Lemma Money_new_spec_witness :
  (Number.nonneg (Number.of_Z 100) = true /\
   exists l w',
     returns (@Money_new stub_host (Number.of_Z 100) 1%positive) sample_world l w' /\
     returns (Money_amount l) w' (Number.of_Z 100) w') /\
  (Number.ltb (Number.of_Z (-5)) Number.zero = true /\
   throws (@Money_new stub_host (Number.of_Z (-5)) 1%positive) sample_world
          (lit "Amount cannot be negative: <number>")).
Proof.
  split.
  - split; [reflexivity|].
    destruct (proj2 (proj2 (@Money_new_spec stub_host (Number.of_Z 100) 1%positive
                              sample_world)) eq_refl)
      as (l & w' & Hr & _ & _ & Ha & _).
    exists l, w'. split; assumption.
  - split; [reflexivity|].
    exact (proj1 (proj2 (@Money_new_spec stub_host (Number.of_Z (-5)) 1%positive
                           sample_world)) eq_refl).
Defined.

(** new Customer("  ") throws; new Customer(" Jane ") has no last order. *)
Lemma Customer_new_spec_witness :
  throws (@Customer_new stub_host (lit "  ")) empty_world (lit "Name cannot be empty") /\
  forall c w', returns (@Customer_new stub_host jane) empty_world c w' ->
               returns (Customer_lastOrderPrice c) w' None w'.
Proof.
  split.
  - exact (proj1 (proj2 (proj2 (@Customer_new_spec stub_host (lit "  ") empty_world)))
             (or_intror eq_refl)).
  - intros c w' Hr.
    exact (proj1 (proj2 (proj2 (proj2 (@Customer_new_spec stub_host jane empty_world)))
                    c w' Hr)).
Defined.

(** new Customer(" Jane ").name keeps the spaces; assigning the last order
    of the sample Customer keeps its id and name. *)
Lemma Customer_name_stored_and_setter_frame_witness :
  (trim jane = lit "Jane" /\
   exists c w',
     returns (@Customer_new stub_host jane) empty_world c w' /\
     returns (Customer_name c) w' jane w') /\
  exists w',
    returns (Customer_set_lastOrderPrice 7%positive 3%positive) sample_world tt w' /\
    returns (Customer_lastOrderPrice 7%positive) w' (Some 3%positive) w' /\
    returns (Customer_id 7%positive) w' (lit "customer-0") w' /\
    returns (Customer_name 7%positive) w' jane w'.
Proof.
  split.
  - split; [reflexivity|].
    apply (proj1 (@Customer_name_stored_and_setter_frame stub_host) jane empty_world).
    discriminate.
  - destruct (proj2 (@Customer_name_stored_and_setter_frame stub_host)
                sample_world 7%positive 3%positive
                {| _id := lit "customer-0"; _name := jane; _lastOrderPrice := None |}
                eq_refl)
      as (w' & Hset & Hlast & Hid & Hname & _ & _).
    exists w'. repeat split; assumption.
Defined.

(** With the clock before 2023-10-05T14:48:00.000Z, that string is in the
    future. *)
Lemma DateTime_new_future_witness :
  @Date_parse stub_host [] = None /\
  @DateTime_new stub_host 1600000000000 (Some (AString iso_example))
    = Throw (Error (lit "Date cannot be in the future: 2023-10-05T14:48:00.000Z.")).
Proof.
  split; [reflexivity|].
  exact (proj1 (@DateTime_new_future stub_host 1600000000000 eq_refl)
           (AString iso_example) iso_example_time eq_refl eq_refl).
Defined.

(* ===================================================================== *)
(** * Further properties *)
(* ===================================================================== *)

Example toFixed_examples :
  @Number_toFixed stub_host (Number.of_Z 150) 2 = lit "150.00" /\
  @Number_toFixed stub_host (S754_finite false 5429652300748554 (-42)) 2 = lit "1234.56" /\
  @Number_toFixed stub_host (S754_finite false 4526117625507348 (-52)) 2 = lit "1.00" /\
  @Number_toFixed stub_host (S754_finite false 5764607523034235 (-60)) 2 = lit "0.01" /\
  @Number_toFixed stub_host (S754_finite false 4697817361300849 (-49)) 2 = lit "8.35" /\
  @Number_toFixed stub_host (S754_finite false 6103515625000000 14) 2
    = lit "100000000000000000000.00" /\
  @Number_toFixed stub_host (S754_finite false 1 (-1074)) 2 = lit "0.00" /\
  @Number_toFixed stub_host (S754_finite true 5629499534213120 (-51)) 2 = lit "-2.50" /\
  @Number_toFixed stub_host (S754_zero true) 2 = lit "0.00" /\
  @Number_toFixed stub_host (S754_finite false 1 70) 2 = lit "<number>".
Proof. repeat split; vm_compute; reflexivity. Qed.

(** ** DateTime: what the constructor accepts and what it holds *)

Section DateTimeMore.
Context {host : Host}.

Lemma DateTime_new_holds (clock : Z) (value : option DateArg) (d : DateTime) :
  DateTime_new clock value = Normal d ->
  exists t,
    getTime (_date d) = Some t /\ (t <= clock)%Z /\
    match value with
    | Some v => if truthy v then getTime (Date_of v) = Some t else t = clock
    | None => t = clock
    end.
Proof.
  unfold DateTime_new. destruct value as [v|].
  - destruct (truthy v).
    + destruct (getTime (Date_of v)) as [t|] eqn:Ht; [|discriminate].
      destruct (Z.ltb_spec clock t) as [Hlt|Hle]; [discriminate|].
      intros [= <-]. exists t. simpl. auto.
    + intros [= <-]. exists clock. simpl. repeat split; lia.
  - intros [= <-]. exists clock. simpl. repeat split; lia.
Qed.

(** X1: the constructor returns exactly when no value is given, the value
    is falsy, or the value is a valid instant not after the clock; an
    instant equal to the clock is accepted. *)
Theorem DateTime_new_returns_iff (clock : Z) (value : option DateArg) :
  (exists d, DateTime_new clock value = Normal d) <->
  match value with
  | None => True
  | Some v =>
      truthy v = false \/
      exists t, getTime (Date_of v) = Some t /\ (t <= clock)%Z
  end.
Proof.
  split.
  - intros [d Hd]. destruct value as [v|]; [|exact I].
    destruct (DateTime_new_holds clock (Some v) d Hd) as (t & _ & Hle & Hv).
    destruct (truthy v); [right | left; reflexivity].
    exists t. split; assumption.
  - destruct value as [v|]; [|intros _; eexists; reflexivity].
    intros [Hf | (t & Ht & Hle)].
    + unfold DateTime_new. rewrite Hf. eexists. reflexivity.
    + destruct (truthy v) eqn:Hv.
      * exists {| _date := Date_of v |}.
        apply (DateTime_new_past clock v t Hv Ht Hle).
      * unfold DateTime_new. rewrite Hv. eexists. reflexivity.
Qed.

(** X2: a DateTime the constructor returned holds a valid instant that is
    not after the clock: the instant of the value it was given, or the
    clock's own when the value is omitted or falsy. *)
Theorem DateTime_new_valid_not_future
    (clock : Z) (value : option DateArg) (d : DateTime) :
  DateTime_new clock value = Normal d ->
  exists t,
    getTime (DateTime_value d) = Some t /\ (t <= clock)%Z /\
    match value with
    | Some v => if truthy v then getTime (Date_of v) = Some t else t = clock
    | None => t = clock
    end.
Proof. apply DateTime_new_holds. Qed.

End DateTimeMore.

Lemma DateTime_new_valid_not_future_witness :
  @DateTime_new stub_host 1700000000000 (Some (AString iso_example))
    = Normal {| _date := {| getTime := Some iso_example_time |} |} /\
  exists t,
    Some iso_example_time = Some t /\ (t <= 1700000000000)%Z /\
    Some iso_example_time = Some t.
Proof.
  split; [reflexivity|].
  exact (@DateTime_new_valid_not_future stub_host 1700000000000
           (Some (AString iso_example))
           {| _date := {| getTime := Some iso_example_time |} |} eq_refl).
Defined.

(** ** Money: how [add] and [multiply] compose *)

Module NumberAlgebra.
Import Number.

Lemma add_comm (x y : number) : add x y = add y x.
Proof.
  destruct x as [sx|sx| |sx mx ex], y as [sy|sy| |sy my ey];
    try reflexivity; try (destruct sx, sy; reflexivity).
  unfold add, SFadd. rewrite (Z.min_comm ey ex). f_equal. apply Z.add_comm.
Qed.

(** Adding a zero gives the number back, or a zero for a zero. *)
Lemma add_zero_r (x z : number) :
  is_zero z = true ->
  (is_zero x = false -> add x z = x) /\
  (is_zero x = true -> is_zero (add x z) = true).
Proof.
  intros Hz.
  destruct z as [sz|sz| |sz mz ez]; try discriminate Hz;
    try (destruct sz; discriminate Hz).
  destruct x as [sx|sx| |sx mx ex]; split; intros Hx;
    try discriminate Hx; try reflexivity;
    try (destruct sx; discriminate Hx); destruct sx, sz; reflexivity.
Qed.
End NumberAlgebra.

Section MoneyMore.
Context {host : Host}.

(** What a call of the constructor that returned has done. *)
Lemma Money_new_inv (a : number) (cur : loc) (w : World) (r : loc) (w' : World) :
  returns (Money_new a cur) w r w' ->
  Number.ltb a Number.zero = false /\ heap w !! r = None /\
  heap w' = <[r := OMoney {| _amount := a; _currency := cur |}]> (heap w) /\
  drawn w' = drawn w /\ extends w w'.
Proof.
  intros Hr. destruct (Number.ltb a Number.zero) eqn:Ha.
  - unfold returns in Hr. rewrite (Money_new_throws a cur w Ha) in Hr. discriminate Hr.
  - destruct (Money_new_returns a cur w Ha) as (l & w1 & E & Hf & Hh & Hd & Hext).
    unfold returns in Hr, E. rewrite E in Hr. injection Hr as -> ->.
    repeat split; assumption.
Qed.

Lemma Money_add_inv (w : World) (x y : loc) (mx my : Money) (cx cy : Currency)
    (r : loc) (w' : World) :
  heap w !! x = Some (OMoney mx) ->
  heap w !! y = Some (OMoney my) ->
  heap w !! _currency mx = Some (OCurrency cx) ->
  heap w !! _currency my = Some (OCurrency cy) ->
  returns (Money_add x y) w r w' ->
  _code cx = _code cy /\ extends w w' /\
  heap w' !! r = Some (OMoney {| _amount := Number.add (_amount mx) (_amount my);
                                 _currency := _currency mx |}).
Proof.
  intros Hx Hy Hcx Hcy Hr. unfold returns in Hr.
  rewrite (Money_add_unfold w x y mx my cx cy Hx Hy Hcx Hcy) in Hr.
  case_bool_decide as Hne; [discriminate Hr|].
  destruct (Money_new_inv _ _ _ _ _ Hr) as (_ & _ & Hh & _ & Hext).
  split; [|split].
  - destruct (decide (_code cx = _code cy)) as [E|E]; [exact E | contradiction].
  - exact Hext.
  - rewrite Hh. apply lookup_insert_eq.
Qed.

(** X4: [add] is commutative in the amount and in whether it fails, not in
    the currency reference: [x.add(y)] and [y.add(x)] throw together, and
    when they return, the two sums are the same number while each result
    holds the currency reference of its own receiver. *)
Theorem Money_add_commutes
    (w : World) (x y : loc) (mx my : Money) (cx cy : Currency) :
  heap w !! x = Some (OMoney mx) ->
  heap w !! y = Some (OMoney my) ->
  heap w !! _currency mx = Some (OCurrency cx) ->
  heap w !! _currency my = Some (OCurrency cy) ->
  (fails (Money_add x y) w <-> fails (Money_add y x) w) /\
  (forall r1 w1 r2 w2,
      returns (Money_add x y) w r1 w1 ->
      returns (Money_add y x) w r2 w2 ->
      exists a,
        heap w1 !! r1 = Some (OMoney {| _amount := a; _currency := _currency mx |}) /\
        heap w2 !! r2 = Some (OMoney {| _amount := a; _currency := _currency my |})).
Proof.
  intros Hx Hy Hcx Hcy. split.
  - unfold fails.
    rewrite (Money_add_unfold w x y mx my cx cy Hx Hy Hcx Hcy).
    rewrite (Money_add_unfold w y x my mx cy cx Hy Hx Hcy Hcx).
    rewrite (NumberAlgebra.add_comm (_amount my) (_amount mx)).
    assert (Hsame : forall cur cur',
      (exists e, fst (Money_new (Number.add (_amount mx) (_amount my)) cur w) = Throw e) <->
      (exists e, fst (Money_new (Number.add (_amount mx) (_amount my)) cur' w) = Throw e)).
    { intros cur cur'. unfold Money_new.
      destruct (Number.ltb _ Number.zero); simpl.
      - split; intros _; eexists; reflexivity.
      - split; intros [e He]; discriminate He. }
    do 2 case_bool_decide; try (exfalso; congruence).
    + split; intros _; eexists; reflexivity.
    + apply Hsame.
  - intros r1 w1 r2 w2 H1 H2.
    destruct (Money_add_inv w x y mx my cx cy r1 w1 Hx Hy Hcx Hcy H1) as (_ & _ & L1).
    destruct (Money_add_inv w y x my mx cy cx r2 w2 Hy Hx Hcy Hcx H2) as (_ & _ & L2).
    exists (Number.add (_amount mx) (_amount my)). split; [exact L1|].
    rewrite NumberAlgebra.add_comm. exact L2.
Qed.

(** X5: adding a Money of amount zero in the same currency returns a new
    Money with the amount of the receiver (a zero amount stays a zero,
    whatever its sign). *)
Theorem Money_add_zero
    (w : World) (x y : loc) (mx my : Money) (cx cy : Currency) :
  heap w !! x = Some (OMoney mx) ->
  heap w !! y = Some (OMoney my) ->
  heap w !! _currency mx = Some (OCurrency cx) ->
  heap w !! _currency my = Some (OCurrency cy) ->
  amount_ok (_amount mx) ->
  _code cx = _code cy ->
  Number.is_zero (_amount my) = true ->
  exists r w' a,
    returns (Money_add x y) w r w' /\
    heap w !! r = None /\
    heap w' !! r = Some (OMoney {| _amount := a; _currency := _currency mx |}) /\
    (Number.is_zero (_amount mx) = false -> a = _amount mx) /\
    (Number.is_zero (_amount mx) = true -> Number.is_zero a = true).
Proof.
  intros Hx Hy Hcx Hcy Hax Hcode Hz.
  assert (Hay : amount_ok (_amount my)).
  { unfold amount_ok. destruct (_amount my) as [s|s| |s m e];
      try reflexivity; destruct s; try reflexivity; discriminate Hz. }
  destruct (Money_new_returns _ (_currency mx) w (sum_amount_ok _ _ Hax Hay))
    as (r & w' & Hr & Hf & Hh & _ & _).
  exists r, w', (Number.add (_amount mx) (_amount my)).
  split; [|split; [exact Hf|split]].
  - unfold returns.
    rewrite (Money_add_unfold w x y mx my cx cy Hx Hy Hcx Hcy).
    rewrite bool_decide_false by auto. exact Hr.
  - rewrite Hh. apply lookup_insert_eq.
  - apply NumberAlgebra.add_zero_r. exact Hz.
Qed.

End MoneyMore.

(** ** Numbers: one is neutral for the product *)

Module MulOne.
Import Number.

Lemma iter_pos_nat {A} (f : A -> A) (n : positive) (x : A) :
  @SpecFloat.iter_pos A f n x = Nat.iter (Pos.to_nat n) f x.
Proof.
  revert x. induction n as [n IH|n IH|]; intros x; cbn [SpecFloat.iter_pos].
  - rewrite !IH, Pos2Nat.inj_xI.
    replace (S (2 * Pos.to_nat n)) with (S (Pos.to_nat n + Pos.to_nat n)) by lia.
    rewrite Nat.iter_succ_r, Nat.iter_add. reflexivity.
  - rewrite !IH, Pos2Nat.inj_xO.
    replace (2 * Pos.to_nat n)%nat with (Pos.to_nat n + Pos.to_nat n)%nat by lia.
    rewrite Nat.iter_add. reflexivity.
  - reflexivity.
Qed.

Lemma shr_1_doubled (n : nat) (m : positive) :
  Nat.iter n shr_1 {| shr_m := Z.pos (Nat.iter n xO m); shr_r := false; shr_s := false |}
  = {| shr_m := Z.pos m; shr_r := false; shr_s := false |}.
Proof.
  induction n as [|n IH]; [reflexivity|].
  rewrite Nat.iter_succ_r. simpl. exact IH.
Qed.

Lemma digits2_doubled (n : nat) (m : positive) :
  Z.pos (digits2_pos (Nat.iter n xO m)) = (Z.pos (digits2_pos m) + Z.of_nat n)%Z.
Proof.
  induction n as [|n IH]; [simpl; lia|].
  simpl Nat.iter. simpl digits2_pos. lia.
Qed.

Lemma mul_one_finite (s : bool) (m : positive) (e : Z) :
  bounded prec emax m e = true ->
  mul (S754_finite s m e) one = S754_finite s m e.
Proof.
  unfold bounded, canonical_mantissa. intros Hb.
  apply andb_true_iff in Hb as [Hc He]. apply Z.eqb_eq in Hc.
  unfold mul, one, of_Z, SFmul. cbn [binary_normalize].
  change (binary_round prec emax false 1 0)
    with (S754_finite false 4503599627370496 (-52)).
  cbv iota beta.
  rewrite xorb_false_r.
  rewrite (Pos.mul_comm m 4503599627370496).
  change (4503599627370496 * m)%positive with (Nat.iter 52 xO m).
  unfold binary_round_aux, shr_fexp.
  unfold Zdigits2 at 1. rewrite digits2_doubled.
  replace (Z.pos (digits2_pos m) + Z.of_nat 52 + (e + -52))%Z
    with (Z.pos (digits2_pos m) + e)%Z by lia.
  rewrite Hc.
  replace (e - (e + -52))%Z with 52%Z by lia.
  unfold shr at 1. rewrite iter_pos_nat.
  change (Pos.to_nat 52) with 52%nat.
  change (shr_record_of_loc (Z.pos (Nat.iter 52 xO m)) loc_Exact)
    with {| shr_m := Z.pos (Nat.iter 52 xO m); shr_r := false; shr_s := false |}.
  rewrite shr_1_doubled.
  cbn [shr_m loc_of_shr_record round_nearest_even shr_record_of_loc Zdigits2].
  replace (e + -52 + 52)%Z with e by lia.
  rewrite Hc, Z.sub_diag. cbn [shr shr_m]. rewrite He. reflexivity.
Qed.

(** One is neutral for the multiplication of binary64 numbers. *)
Lemma mul_one (x : number) : is_binary64 x = true -> mul x one = x.
Proof.
  destruct x as [s|s| |s m e]; intros Hx.
  - destruct s; reflexivity.
  - destruct s; reflexivity.
  - reflexivity.
  - apply mul_one_finite. exact Hx.
Qed.
End MulOne.

(** ** Decimal digits *)

Module DecimalDigits.

Lemma digit_value_digit (d : N) : d < 10 -> digit_value (48 + d) = Some d.
Proof.
  intros Hd. unfold digit_value.
  destruct (N.leb_spec 48 (48 + d)); [|lia].
  destruct (N.leb_spec (48 + d) 57); [|lia].
  simpl. f_equal. lia.
Qed.

Lemma decimal_value_from_acc (d : Decimal.uint) (acc : positive) :
  decimal_value_from (N.pos acc) (uint_units d)
  = Some (N.pos (Pos.of_uint_acc d acc)).
Proof.
  revert acc. induction d as [|d IH|d IH|d IH|d IH|d IH|d IH|d IH|d IH|d IH|d IH];
    intros acc; [reflexivity|..];
    cbn [uint_units decimal_value_from Pos.of_uint_acc];
    [ change 48 with (48 + 0) | change 49 with (48 + 1) | change 50 with (48 + 2)
    | change 51 with (48 + 3) | change 52 with (48 + 4) | change 53 with (48 + 5)
    | change 54 with (48 + 6) | change 55 with (48 + 7) | change 56 with (48 + 8)
    | change 57 with (48 + 9) ];
    (rewrite digit_value_digit by lia); rewrite <- IH; f_equal; lia.
Qed.

Lemma decimal_value_uint (d : Decimal.uint) :
  decimal_value_from 0 (uint_units d) = Some (Pos.of_uint d).
Proof.
  induction d as [|d IH|d IH|d IH|d IH|d IH|d IH|d IH|d IH|d IH|d IH];
    [reflexivity | exact IH | ..];
    cbn [uint_units decimal_value_from Pos.of_uint];
    apply (decimal_value_from_acc d).
Qed.

(** Reading the digits of [n] gives [n]. *)
Lemma decimal_value_decimal (n : N) : decimal_value (decimal n) = Some n.
Proof.
  unfold decimal_value, decimal. rewrite decimal_value_uint.
  f_equal. apply (DecimalN.Unsigned.of_to n).
Qed.

Lemma decimal_value_zeros (k : nat) (u : jsstring) :
  decimal_value (repeat 48 k ++ u) = decimal_value u.
Proof. induction k as [|k IH]; [reflexivity | exact IH]. Qed.

Lemma uint_units_digits (d : Decimal.uint) : forallb is_digit (uint_units d) = true.
Proof. induction d; simpl; auto. Qed.

Lemma decimal_digits (n : N) : forallb is_digit (decimal n) = true.
Proof. apply uint_units_digits. Qed.

Lemma decimal_nonempty (n : N) : decimal n <> [].
Proof.
  unfold decimal. destruct n as [|p]; [discriminate|].
  pose proof (DecimalPos.Unsigned.to_uint_nonnil p) as Hp.
  simpl. destruct (Pos.to_uint p); [contradiction | discriminate..].
Qed.

End DecimalDigits.

(** ** toFixed *)

Module ToFixedFacts.
Import ToFixed.

(** With at least one digit after the point, [point n f] is the digits of
    [n], zero-padded to more than [f] of them, with the point before the
    last [f]. *)
Lemma point_shape (n : N) (f : nat) :
  (0 < f)%nat ->
  exists a b : jsstring,
    point n f = a ++ lit "." ++ b /\
    a <> [] /\ length b = f /\
    forallb is_digit (a ++ b) = true /\
    decimal_value (a ++ b) = Some n.
Proof.
  intros Hf. unfold point.
  set (m := decimal n).
  set (m' := if (length m <=? f)%nat then repeat 48 (f + 1 - length m)%nat ++ m else m).
  assert (Hlen : (f < length m')%nat).
  { unfold m'. destruct (Nat.leb_spec (length m) f) as [Hle|Hgt].
    - rewrite length_app, repeat_length. lia.
    - exact Hgt. }
  assert (Hdig : forallb is_digit m' = true).
  { unfold m'. destruct (length m <=? f)%nat.
    - rewrite forallb_app. apply andb_true_iff. split.
      + clear. induction (f + 1 - length m)%nat; [reflexivity | exact IHn0].
      + apply DecimalDigits.decimal_digits.
    - apply DecimalDigits.decimal_digits. }
  assert (Hval : decimal_value m' = Some n).
  { unfold m'. destruct (length m <=? f)%nat.
    - rewrite DecimalDigits.decimal_value_zeros.
      apply DecimalDigits.decimal_value_decimal.
    - apply DecimalDigits.decimal_value_decimal. }
  destruct (Nat.eqb_spec f 0) as [->|_]; [lia|].
  exists (take (length m' - f) m'), (drop (length m' - f) m').
  rewrite take_drop. repeat split; try assumption.
  - intros E. apply (f_equal (@length _)) in E.
    rewrite length_take in E. simpl in E. lia.
  - rewrite length_drop. lia.
Qed.

(** [nearest] is what its name says: an exact product when the number is
    an integer, and otherwise, among all integers [k], one that minimises
    the distance of [k / 10^f] to [m / 2^(-e)], the larger of the two when
    the number is half way. *)
Lemma nearest_spec (m : positive) (e : Z) (f : nat) :
  let n := Z.of_N (nearest m e f) in
  ((0 <= e)%Z -> n = (Z.pos m * 2 ^ e * 10 ^ Z.of_nat f)%Z) /\
  ((e < 0)%Z ->
   let d := (2 ^ (- e))%Z in
   let v := (Z.pos m * 10 ^ Z.of_nat f)%Z in
   forall k : Z,
     (Z.abs (n * d - v) <= Z.abs (k * d - v))%Z /\
     (Z.abs (n * d - v) = Z.abs (k * d - v) -> k <= n)%Z).
Proof.
  unfold nearest, numerator, denominator. cbv zeta.
  assert (H10 : (0 < 10 ^ Z.of_nat f)%Z) by (apply Z.pow_pos_nonneg; lia).
  split.
  - intros He. destruct (Z.leb_spec 0 e) as [_|?]; [|lia].
    assert (H2 : (0 < 2 ^ e)%Z) by (apply Z.pow_pos_nonneg; lia).
    set (p := (Z.pos m * 2 ^ e * 10 ^ Z.of_nat f)%Z).
    assert (Hp : (0 <= p)%Z) by (unfold p; nia).
    replace ((2 * (Z.pos m * 2 ^ e) * 10 ^ Z.of_nat f + 1) / (2 * 1))%Z with p.
    + apply Z2N.id. exact Hp.
    + apply (Z.div_unique _ _ _ 1); [lia | unfold p; lia].
  - intros He. destruct (Z.leb_spec 0 e) as [?|_]; [lia|].
    set (d := (2 ^ (- e))%Z). set (v := (Z.pos m * 10 ^ Z.of_nat f)%Z).
    assert (Hd : (0 < d)%Z) by (apply Z.pow_pos_nonneg; lia).
    assert (Hv : (0 < v)%Z) by (unfold v; nia).
    replace (2 * Z.pos m * 10 ^ Z.of_nat f)%Z with (2 * v)%Z by (unfold v; lia).
    set (q := ((2 * v + d) / (2 * d))%Z).
    assert (Hq : (0 <= q)%Z) by (apply Z.div_pos; lia).
    rewrite (Z2N.id q Hq).
    pose proof (Z.div_mod (2 * v + d) (2 * d) ltac:(lia)) as Hdm.
    pose proof (Z.mod_pos_bound (2 * v + d) (2 * d) ltac:(lia)) as Hr.
    fold q in Hdm.
    set (r := ((2 * v + d) mod (2 * d))%Z) in *.
    assert (Hlo : (- d < 2 * (q * d - v))%Z) by nia.
    assert (Hhi : (2 * (q * d - v) <= d)%Z) by nia.
    intros k.
    destruct (Z.lt_trichotomy k q) as [Hk|[Hk|Hk]].
    + assert (Hk' : (k * d <= q * d - d)%Z) by nia. split; lia.
    + subst k. split; lia.
    + assert (Hk' : (q * d + d <= k * d)%Z) by nia. split; lia.
Qed.

End ToFixedFacts.

Section MoneyRendering.
Context {host : Host}.

(** X6: multiplying by one returns a new Money with the amount and the
    currency reference of the receiver, for an amount that is a binary64
    number. *)
Theorem Money_multiply_one (w : World) (x : loc) (mx : Money) :
  heap w !! x = Some (OMoney mx) ->
  amount_ok (_amount mx) ->
  is_binary64 (_amount mx) = true ->
  exists r w',
    returns (Money_multiply x one) w r w' /\
    heap w !! r = None /\
    heap w' !! r = Some (OMoney mx).
Proof.
  intros Hx Hax Hb.
  assert (Hone : Number.ltb one Number.zero = false) by reflexivity.
  destruct (Money_new_returns _ (_currency mx) w (product_amount_ok _ _ Hax Hone))
    as (r & w' & Hr & Hf & Hh & _ & _).
  exists r, w'. split; [|split].
  - unfold returns. rewrite (Money_multiply_unfold w x mx one Hx Hone). exact Hr.
  - exact Hf.
  - rewrite Hh, lookup_insert_eq, (MulOne.mul_one _ Hb). destruct mx; reflexivity.
Qed.

Lemma Money_toString_unfold (w : World) (x : loc) (mx : Money) (cx : Currency) :
  heap w !! x = Some (OMoney mx) ->
  heap w !! _currency mx = Some (OCurrency cx) ->
  Money_toString x w
  = (Normal (_code cx ++ lit " " ++ Number_toFixed (_amount mx) 2), w).
Proof.
  intros Hx Hc. unfold Money_toString, Currency_code. unmonad.
  rewrite (the_Money_lookup _ _ _ Hx), (the_Currency_lookup _ _ _ Hc). reflexivity.
Qed.

(** X7: for a Money whose amount is finite and below [10^21], [toString]
    returns the currency code, a space, and the amount with exactly two
    digits after the point: at least one digit, a point, two digits, no
    sign; read without the point, the digits are the amount in hundredths,
    rounded. *)
Theorem Money_toString_two_decimals
    (w : World) (x : loc) (mx : Money) (cx : Currency) :
  heap w !! x = Some (OMoney mx) ->
  heap w !! _currency mx = Some (OCurrency cx) ->
  amount_ok (_amount mx) ->
  ToFixed.in_range (_amount mx) = true ->
  exists a b : jsstring,
    returns (Money_toString x) w (_code cx ++ lit " " ++ a ++ lit "." ++ b) w /\
    a <> [] /\ length b = 2%nat /\
    forallb is_digit (a ++ b) = true /\
    decimal_value (a ++ b) = Some (ToFixed.scaled (_amount mx) 2).
Proof.
  intros Hx Hc Hax Hin.
  assert (Hfix : Number_toFixed (_amount mx) 2
                 = ToFixed.point (ToFixed.scaled (_amount mx) 2) 2).
  { unfold amount_ok in Hax. rewrite NumberFacts.ltb_zero in Hax.
    destruct (_amount mx) as [s|s| |s m e]; try discriminate Hin; [reflexivity|].
    simpl in Hax, Hin. subst s. apply negb_true_iff in Hin.
    unfold Number_toFixed, ToFixed.scaled. rewrite Hin. reflexivity. }
  destruct (ToFixedFacts.point_shape (ToFixed.scaled (_amount mx) 2) 2 ltac:(lia))
    as (a & b & Hp & Ha & Hb & Hd & Hv).
  exists a, b. unfold returns.
  rewrite (Money_toString_unfold w x mx cx Hx Hc), Hfix, Hp.
  repeat split; assumption.
Qed.

End MoneyRendering.

(** X8: the integer that [toFixed(f)] writes for the positive number
    [m * 2^e] is that number times [10^f] when it is an integer ([e >= 0]);
    otherwise it is an integer nearest to [m * 10^f / 2^(-e)], and the larger
    of the two when that lies half way between them. *)
Theorem toFixed_rounds_to_nearest (m : positive) (e : Z) (f : nat) (k : Z) :
  let n := Z.of_N (ToFixed.nearest m e f) in
  ((0 <= e)%Z -> n = (Z.pos m * 2 ^ e * 10 ^ Z.of_nat f)%Z) /\
  ((e < 0)%Z ->
   let d := (2 ^ (- e))%Z in
   let v := (Z.pos m * 10 ^ Z.of_nat f)%Z in
   (Z.abs (n * d - v) <= Z.abs (k * d - v))%Z /\
   (Z.abs (n * d - v) = Z.abs (k * d - v) -> k <= n)%Z).
Proof.
  destruct (ToFixedFacts.nearest_spec m e f) as [Hint Hfrac].
  split; [exact Hint|]. intros He. apply (Hfrac He k).
Qed.

Example Money_toString_scenario :
  fst ((r ← @Money_add stub_host 3%positive 4%positive; @Money_toString stub_host r)
         sample_world)
  = Normal (lit "USD 150.00").
Proof. vm_compute. reflexivity. Qed.

Lemma Money_multiply_one_witness :
  exists r w',
    returns (@Money_multiply stub_host 3%positive one) sample_world r w' /\
    heap sample_world !! r = None /\
    heap w' !! r
      = Some (OMoney {| _amount := Number.of_Z 100; _currency := 1%positive |}).
Proof.
  exact (@Money_multiply_one stub_host sample_world 3%positive
           {| _amount := Number.of_Z 100; _currency := 1%positive |}
           eq_refl eq_refl eq_refl).
Defined.

Lemma Money_toString_two_decimals_witness :
  returns (@Money_toString stub_host 3%positive) sample_world (lit "USD 100.00")
          sample_world /\
  exists a b : jsstring,
    returns (@Money_toString stub_host 3%positive) sample_world
            (USD ++ lit " " ++ a ++ lit "." ++ b) sample_world /\
    a <> [] /\ length b = 2%nat /\
    forallb is_digit (a ++ b) = true /\
    decimal_value (a ++ b) = Some 10000.
Proof.
  split; [vm_compute; reflexivity|].
  exact (@Money_toString_two_decimals stub_host sample_world 3%positive
           {| _amount := Number.of_Z 100; _currency := 1%positive |}
           {| _code := USD |} eq_refl eq_refl eq_refl eq_refl).
Defined.

Lemma toFixed_rounds_to_nearest_witness :
  ToFixed.nearest 4526117625507348 (-52) 2 = 100 /\
  (Z.abs (100 * 2 ^ 52 - 4526117625507348 * 10 ^ 2)
   <= Z.abs (101 * 2 ^ 52 - 4526117625507348 * 10 ^ 2))%Z.
Proof.
  split; [reflexivity|].
  exact (proj1 (proj2 (toFixed_rounds_to_nearest 4526117625507348 (-52) 2 101)
                  eq_refl)).
Defined.

(** ** What a call can change *)

Section Immutability.
Context {host : Host}.

(** X9: Money and Currency objects are immutable, and so are the [id] and
    [name] of a Customer: whatever call is made, whether it returns or
    throws, every object of the heap is afterwards what it was before, with
    one exception, the Customer on which [lastOrderPrice] is assigned, and
    that one changes in that field only. *)
Theorem only_lastOrderPrice_is_mutable (call : Call) (w : World) (l : loc) (o : Obj) :
  heap w !! l = Some o ->
  heap (exec call w) !! l = Some o \/
  exists v cu,
    call = SetLastOrderPrice l v /\ o = OCustomer cu /\
    heap (exec call w) !! l
      = Some (OCustomer {| _id := _id cu; _name := _name cu;
                           _lastOrderPrice := Some v |}).
Proof.
  intros Hl.
  assert (Hother : (forall v, call <> SetLastOrderPrice l v) ->
                   heap (exec call w) !! l = Some o).
  { apply exec_keeps. exact Hl. }
  destruct call as [code|a cur|x y|x f|name|c v];
    try (left; apply Hother; discriminate).
  destruct (decide (c = l)) as [->|Hne].
  - unfold exec.
    destruct (Customer_set_lastOrderPrice_world w l v) as [(cu & Hc & E) | E].
    + right. exists v, cu. rewrite Hl in Hc. injection Hc as ->.
      repeat split. rewrite E. apply lookup_insert_eq.
    + left. rewrite E. exact Hl.
  - left. apply Hother. intros v' [= ? ?]. contradiction.
Qed.

(** X10: the getters and [toString] only read: they leave the heap and
    the identifier generator as they are, whatever they are called on. *)
Theorem readers_change_nothing (w : World) (l : loc) :
  snd (Currency_code l w) = w /\
  snd (Currency_toString l w) = w /\
  snd (Money_amount l w) = w /\
  snd (Money_currency l w) = w /\
  snd (Money_toString l w) = w /\
  snd (Customer_id l w) = w /\
  snd (Customer_name l w) = w /\
  snd (Customer_lastOrderPrice l w) = w.
Proof.
  assert (HC : forall {A} (f : Customer -> A),
             snd ((c ← the_Customer l; mret (f c)) w) = w).
  { intros A f. unmonad. pose proof (the_Customer_world w l) as Hw.
    destruct (the_Customer l w) as [[c|e] w1]; exact Hw. }
  repeat split.
  - apply Currency_code_world.
  - apply Currency_code_world.
  - apply Money_amount_world.
  - apply Money_currency_world.
  - unfold Money_toString. unmonad.
    pose proof (the_Money_world w l) as H1.
    destruct (the_Money l w) as [[m|e] w1]; simpl in H1; subst w1; [|reflexivity].
    pose proof (Currency_code_world w (_currency m)) as H2.
    destruct (Currency_code (_currency m) w) as [[c|e] w2]; exact H2.
  - apply (HC _ _id).
  - apply (HC _ _name).
  - apply (HC _ _lastOrderPrice).
Qed.

(** X11: assigning [lastOrderPrice] twice is assigning the second value
    once: the later write overwrites the earlier one and leaves no other
    trace. *)
Theorem Customer_set_lastOrderPrice_overwrites
    (w : World) (c v1 v2 : loc) (cu : Customer) :
  heap w !! c = Some (OCustomer cu) ->
  let w1 := snd (Customer_set_lastOrderPrice c v1 w) in
  let w2 := snd (Customer_set_lastOrderPrice c v2 w1) in
  w2 = snd (Customer_set_lastOrderPrice c v2 w) /\
  returns (Customer_lastOrderPrice c) w2 (Some v2) w2.
Proof.
  intros Hc w1 w2. unfold w2, w1.
  rewrite (Customer_set_lastOrderPrice_returns w c v1 cu Hc). cbn [snd].
  set (cu1 := {| _id := _id cu; _name := _name cu; _lastOrderPrice := Some v1 |}).
  set (wa := {| heap := <[c := OCustomer cu1]> (heap w); drawn := drawn w |}).
  assert (Hc1 : heap wa !! c = Some (OCustomer cu1)) by apply lookup_insert_eq.
  rewrite (Customer_set_lastOrderPrice_returns wa c v2 cu1 Hc1).
  rewrite (Customer_set_lastOrderPrice_returns w c v2 cu Hc). cbn [snd].
  split.
  - unfold wa. cbn [heap drawn]. rewrite insert_insert_eq. reflexivity.
  - apply (Customer_getters _ c
             {| _id := _id cu1; _name := _name cu1; _lastOrderPrice := Some v2 |}).
    apply lookup_insert_eq.
Qed.

End Immutability.

Lemma only_lastOrderPrice_is_mutable_witness :
  heap (@exec stub_host (SetLastOrderPrice 7%positive 3%positive) sample_world)
    !! 3%positive
  = Some (OMoney {| _amount := Number.of_Z 100; _currency := 1%positive |}) \/
  exists v cu,
    SetLastOrderPrice 7%positive 3%positive = SetLastOrderPrice 3%positive v /\
    OMoney {| _amount := Number.of_Z 100; _currency := 1%positive |} = OCustomer cu /\
    heap (@exec stub_host (SetLastOrderPrice 7%positive 3%positive) sample_world)
      !! 3%positive
    = Some (OCustomer {| _id := _id cu; _name := _name cu;
                         _lastOrderPrice := Some v |}).
Proof.
  exact (@only_lastOrderPrice_is_mutable stub_host
           (SetLastOrderPrice 7%positive 3%positive) sample_world 3%positive
           (OMoney {| _amount := Number.of_Z 100; _currency := 1%positive |})
           eq_refl).
Defined.

Lemma Customer_set_lastOrderPrice_overwrites_witness :
  let w1 := snd (Customer_set_lastOrderPrice 7%positive 3%positive sample_world) in
  let w2 := snd (Customer_set_lastOrderPrice 7%positive 4%positive w1) in
  w2 = snd (Customer_set_lastOrderPrice 7%positive 4%positive sample_world) /\
  returns (Customer_lastOrderPrice 7%positive) w2 (Some 4%positive) w2.
Proof.
  exact (Customer_set_lastOrderPrice_overwrites sample_world
           7%positive 3%positive 4%positive
           {| _id := lit "customer-0"; _name := jane; _lastOrderPrice := None |}
           eq_refl).
Defined.

(** ** Customer identifiers *)

Section Identifiers.
Context {host : Host}.

(** A call either draws no identifier and makes no Customer, or it is a
    successful [new Customer], which draws one identifier and makes one
    Customer carrying it. *)
Lemma exec_customers (call : Call) (w : World) :
  (drawn (exec call w) = drawn w /\
   forall l c', heap (exec call w) !! l = Some (OCustomer c') ->
                exists c, heap w !! l = Some (OCustomer c) /\ _id c = _id c') \/
  (drawn (exec call w) = S (drawn w) /\
   exists l0, heap w !! l0 = None /\
     forall l c', heap (exec call w) !! l = Some (OCustomer c') ->
                  (l = l0 /\ _id c' = randomUUID (drawn w)) \/
                  (l <> l0 /\ heap w !! l = Some (OCustomer c'))).
Proof.
  assert (Hsame : forall w', w' = w ->
            drawn w' = drawn w /\
            forall l c', heap w' !! l = Some (OCustomer c') ->
                         exists c, heap w !! l = Some (OCustomer c) /\ _id c = _id c').
  { intros w' ->. split; [reflexivity|]. intros l c' Hl. exists c'. auto. }
  assert (Hmoney : forall a cur,
            drawn (snd (Money_new a cur w)) = drawn w /\
            forall l c', heap (snd (Money_new a cur w)) !! l = Some (OCustomer c') ->
                         exists c, heap w !! l = Some (OCustomer c) /\ _id c = _id c').
  { intros a cur. destruct (Number.ltb a Number.zero) eqn:Ha.
    - apply Hsame. rewrite (Money_new_throws a cur w Ha). reflexivity.
    - destruct (Money_new_returns a cur w Ha) as (r & w' & E & _ & Hh & Hd & _).
      unfold returns in E. rewrite E. cbn [snd]. split; [exact Hd|].
      intros l c'. rewrite Hh.
      destruct (decide (r = l)) as [<-|Hne].
      + rewrite lookup_insert_eq. discriminate.
      + rewrite lookup_insert_ne by exact Hne. intros Hl. exists c'. auto. }
  destruct call as [code|a cur|x y|x f|name|c v]; unfold exec.
  - left. destruct (Currency_new_returns code w) as (r & w' & E & _ & Hh & Hd & _).
    unfold returns in E. rewrite E. cbn [snd]. split; [exact Hd|].
    intros l c'. rewrite Hh.
    destruct (decide (r = l)) as [<-|Hne].
    + rewrite lookup_insert_eq. discriminate.
    + rewrite lookup_insert_ne by exact Hne. intros Hl. exists c'. auto.
  - left. apply Hmoney.
  - left. destruct (Money_add_world w x y) as [[e E] | (a & cur & E)].
    + apply Hsame. rewrite E. reflexivity.
    + rewrite E. apply Hmoney.
  - left. destruct (Money_multiply_world w x f) as [[e E] | (a & cur & E)].
    + apply Hsame. rewrite E. reflexivity.
    + rewrite E. apply Hmoney.
  - destruct (blank name) eqn:Hb.
    + left. apply Hsame. rewrite (Customer_new_throws name w Hb). reflexivity.
    + right. destruct (Customer_new_returns name w Hb) as (r & w' & E & Hf & Hh & Hd & _).
      unfold returns in E. rewrite E. cbn [snd]. split; [exact Hd|].
      exists r. split; [exact Hf|].
      intros l c'. rewrite Hh.
      destruct (decide (r = l)) as [<-|Hne].
      * rewrite lookup_insert_eq. intros [= <-]. left. auto.
      * rewrite lookup_insert_ne by exact Hne. intros Hl. right. auto.
  - left. destruct (Customer_set_lastOrderPrice_world w c v) as [(cu & Hc & E) | E].
    + split.
      * unfold Customer_set_lastOrderPrice. unmonad.
        rewrite (the_Customer_lookup _ _ _ Hc). reflexivity.
      * intros l c'. rewrite E.
        destruct (decide (c = l)) as [<-|Hne].
        -- rewrite lookup_insert_eq. intros [= <-]. exists cu. auto.
        -- rewrite lookup_insert_ne by exact Hne. intros Hl. exists c'. auto.
    + apply Hsame. exact E.
Qed.

Lemma exec_identifiers (call : Call) (w : World) :
  identifiers_invariant w -> identifiers_invariant (exec call w).
Proof.
  intros (draw & Hid & Hinj).
  destruct (exec_customers call w) as [[Hd Hold] | (Hd & l0 & Hfree & Hnew)].
  - exists draw. split.
    + intros l c' Hl. destruct (Hold l c' Hl) as (c & Hc & <-).
      rewrite Hd. apply (Hid l c Hc).
    + intros l l' c c' Hl Hl' Hne.
      destruct (Hold l c Hl) as (c0 & Hc0 & _).
      destruct (Hold l' c' Hl') as (c0' & Hc0' & _).
      apply (Hinj l l' c0 c0' Hc0 Hc0' Hne).
  - exists (fun l => if decide (l = l0) then drawn w else draw l). split.
    + intros l c' Hl. rewrite Hd.
      destruct (Hnew l c' Hl) as [[-> Hc] | [Hne Hc]].
      * rewrite decide_True by reflexivity. split; [exact Hc | lia].
      * rewrite decide_False by exact Hne.
        destruct (Hid l c' Hc) as [E Hlt]. split; [exact E | lia].
    + intros l l' c c' Hl Hl' Hne.
      destruct (Hnew l c Hl) as [[-> Hc] | [Hn Hc]];
        destruct (Hnew l' c' Hl') as [[-> Hc'] | [Hn' Hc']].
      * contradiction.
      * rewrite decide_True by reflexivity. rewrite decide_False by exact Hn'.
        destruct (Hid l' c' Hc') as [_ Hlt]. lia.
      * rewrite decide_False by exact Hn. rewrite decide_True by reflexivity.
        destruct (Hid l c Hc) as [_ Hlt]. lia.
      * rewrite decide_False by exact Hn. rewrite decide_False by exact Hn'.
        apply (Hinj l l' c c' Hc Hc' Hne).
Qed.

Lemma reachable_identifiers (w : World) :
  reachable w -> identifiers_invariant w.
Proof.
  induction 1 as [|w c Hw IH].
  - exists (fun _ => O). split.
    + intros l c Hl. simpl in Hl. rewrite lookup_empty in Hl. discriminate.
    + intros l l' c c' Hl. simpl in Hl. rewrite lookup_empty in Hl. discriminate.
  - apply exec_identifiers, IH.
Qed.

(** X12: if [crypto.randomUUID] never returns the same identifier twice,
    no two Customers have the same [id], in any world that calls of the
    interface can produce from the empty heap. *)
Theorem Customer_ids_are_unique (w : World) (l l' : loc) (c c' : Customer) :
  (forall i j : nat, randomUUID i = randomUUID j -> i = j) ->
  reachable w ->
  heap w !! l = Some (OCustomer c) ->
  heap w !! l' = Some (OCustomer c') ->
  l <> l' ->
  _id c <> _id c'.
Proof.
  intros Hgen Hw Hl Hl' Hne E.
  destruct (reachable_identifiers w Hw) as (draw & Hid & Hinj).
  destruct (Hid l c Hl) as [Ec _]. destruct (Hid l' c' Hl') as [Ec' _].
  apply (Hinj l l' c c' Hl Hl' Hne).
  apply Hgen. rewrite <- Ec, <- Ec'. exact E.
Qed.

End Identifiers.

Lemma stub_randomUUID_injective (i j : nat) :
  @randomUUID stub_host i = @randomUUID stub_host j -> i = j.
Proof.
  unfold randomUUID, stub_host. intros E.
  apply app_inv_head in E. injection E as E. lia.
Qed.

Lemma Customer_ids_are_unique_witness :
  lit "customer-0" <> lit "customer-1".
Proof.
  exact (@Customer_ids_are_unique stub_host two_customers 7%positive 8%positive
           {| _id := lit "customer-0"; _name := jane; _lastOrderPrice := None |}
           {| _id := lit "customer-1"; _name := lit "John Doe";
              _lastOrderPrice := None |}
           stub_randomUUID_injective
           (exec_all_reachable _ _ reachable_empty)
           eq_refl eq_refl ltac:(discriminate)).
Defined.

(** ** Type-correct programs *)

Section Typed.
Context {host : Host}.

Lemma well_typed_object_extends (w w' : World) (o : Obj) :
  extends w w' -> well_typed_object w o -> well_typed_object w' o.
Proof.
  intros Hext. destruct o as [c|m|cu]; simpl.
  - auto.
  - intros [c Hc]. exists c. apply (extends_lookup _ _ _ _ Hext Hc).
  - destruct (_lastOrderPrice cu) as [v|]; [|auto].
    intros [m Hm]. exists m. apply (extends_lookup _ _ _ _ Hext Hm).
Qed.

(** Allocating an object that is well typed keeps the heap well typed. *)
Lemma alloc_well_typed (o : Obj) (w : World) (d : nat) :
  well_typed w -> well_typed_object w o ->
  well_typed (snd (alloc o {| heap := heap w; drawn := d |})).
Proof.
  intros Hw Ho.
  set (w0 := {| heap := heap w; drawn := d |}).
  pose proof (alloc_extends o w0) as Hext.
  assert (Hext' : extends w (snd (alloc o w0))) by exact Hext.
  intros l o'. unfold alloc. cbn [snd heap].
  destruct (decide (fresh (dom (heap w0)) = l)) as [<-|Hne].
  - rewrite lookup_insert_eq. intros [= <-].
    apply (well_typed_object_extends w _ o Hext' Ho).
  - rewrite lookup_insert_ne by exact Hne. intros Hl.
    apply (well_typed_object_extends w _ o' Hext' (Hw l o' Hl)).
Qed.

Lemma Money_new_well_typed (a : number) (cur : loc) (c : Currency) (w : World) :
  well_typed w -> heap w !! cur = Some (OCurrency c) ->
  well_typed (snd (Money_new a cur w)).
Proof.
  intros Hw Hc. unfold Money_new. destruct (Number.ltb a Number.zero).
  - exact Hw.
  - destruct w as [h d]. apply (alloc_well_typed _ {| heap := h; drawn := d |} d Hw).
    exists c. exact Hc.
Qed.

Lemma exec_well_typed (call : Call) (w : World) :
  well_typed w -> well_typed_call w call -> well_typed (exec call w).
Proof.
  intros Hw Hcall. destruct call as [code|a cur|x y|x f|name|c v]; unfold exec.
  - unfold Currency_new. destruct w as [h d].
    apply (alloc_well_typed _ {| heap := h; drawn := d |} d Hw). exact Hcall.
  - destruct Hcall as [c Hc]. apply (Money_new_well_typed a cur c w Hw Hc).
  - destruct Hcall as [[mx Hx] [my Hy]].
    destruct (Hw x _ Hx) as [cx Hcx]. destruct (Hw y _ Hy) as [cy Hcy].
    rewrite (Money_add_unfold w x y mx my cx cy Hx Hy Hcx Hcy).
    destruct (bool_decide (_code cx ≠ _code cy)); [exact Hw|].
    apply (Money_new_well_typed _ _ cx w Hw Hcx).
  - destruct Hcall as [mx Hx]. destruct (Hw x _ Hx) as [cx Hcx].
    destruct (Number.ltb f Number.zero) eqn:Hf.
    + rewrite (Money_multiply_throws w x f Hf). exact Hw.
    + rewrite (Money_multiply_unfold w x mx f Hx Hf).
      apply (Money_new_well_typed _ _ cx w Hw Hcx).
  - destruct (blank name) eqn:Hb.
    + rewrite (Customer_new_throws name w Hb). exact Hw.
    + unfold Customer_new. rewrite Hb. unfold crypto_randomUUID. unmonad.
      apply (alloc_well_typed _ w (S (drawn w)) Hw). exact I.
  - destruct Hcall as [[cu Hc] [m Hm]].
    rewrite (Customer_set_lastOrderPrice_returns w c v cu Hc). cbn [snd].
    assert (Hkeep : forall l o, heap w !! l = Some o ->
              match o with OCustomer _ => True
                         | _ => <[c := OCustomer {| _id := _id cu; _name := _name cu;
                                       _lastOrderPrice := Some v |}]> (heap w) !! l
                                = Some o end).
    { intros l o Hl. destruct o as [c0|m0|cu0]; [| |exact I];
        (rewrite lookup_insert_ne; [exact Hl|]); intros ->; rewrite Hc in Hl;
        discriminate Hl. }
    assert (Hobj : forall o, well_typed_object w o ->
              well_typed_object
                {| heap := <[c := OCustomer {| _id := _id cu; _name := _name cu;
                                               _lastOrderPrice := Some v |}]> (heap w);
                   drawn := drawn w |} o).
    { intros o. destruct o as [c0|m0|cu0]; simpl.
      - auto.
      - intros [c1 Hc1]. exists c1. apply (Hkeep _ _ Hc1).
      - destruct (_lastOrderPrice cu0) as [v0|]; [|auto].
        intros [m1 Hm1]. exists m1. apply (Hkeep _ _ Hm1). }
    intros l o. cbn [heap].
    destruct (decide (c = l)) as [<-|Hne].
    + rewrite lookup_insert_eq. intros [= <-]. simpl.
      exists m. apply (Hkeep _ _ Hm).
    + rewrite lookup_insert_ne by exact Hne. intros Hl.
      apply Hobj. apply (Hw l o Hl).
Qed.

Lemma reachable_typed_well_typed (w : World) : reachable_typed w -> well_typed w.
Proof.
  induction 1 as [|w c Hw IH Hc].
  - intros l o Hl. simpl in Hl. rewrite lookup_empty in Hl. discriminate.
  - apply exec_well_typed; assumption.
Qed.

Lemma reachable_typed_reachable (w : World) : reachable_typed w -> reachable w.
Proof.
  induction 1 as [|w c Hw IH Hc].
  - apply reachable_empty.
  - apply reachable_step. exact IH.
Qed.

(** X13: in every world a type-correct program can produce, each
    reference held in a field leads to an object of the class the field is
    declared with (the currency of a Money is a Currency, a last order price
    is a Money), and the code of every Currency is three upper-case
    letters. *)
Theorem typed_programs_keep_the_heap_typed (w : World) (l : loc) (o : Obj) :
  reachable_typed w ->
  heap w !! l = Some o ->
  match o with
  | OCurrency c => is_CurrencyCode (_code c) = true
  | OMoney m => exists c, heap w !! _currency m = Some (OCurrency c)
  | OCustomer cu =>
      _lastOrderPrice cu = None \/
      exists v m, _lastOrderPrice cu = Some v /\ heap w !! v = Some (OMoney m)
  end.
Proof.
  intros Hw Hl. pose proof (reachable_typed_well_typed w Hw l o Hl) as Ho.
  destruct o as [c|m|cu]; simpl in Ho; try exact Ho.
  destruct (_lastOrderPrice cu) as [v|]; [right | left; reflexivity].
  destruct Ho as [m Hm]. exists v, m. auto.
Qed.

(** X14: in a type-correct program, [x.add(y)] on two Money objects
    either returns a new Money, at a reference not in use before, or throws
    the error of the currency mismatch; it has no other outcome. *)
Theorem typed_add_returns_or_mismatch (w : World) (x y : loc) (mx my : Money) :
  reachable_typed w ->
  heap w !! x = Some (OMoney mx) ->
  heap w !! y = Some (OMoney my) ->
  exists cx cy,
    heap w !! _currency mx = Some (OCurrency cx) /\
    heap w !! _currency my = Some (OCurrency cy) /\
    ((_code cx = _code cy /\
      exists r w', returns (Money_add x y) w r w' /\
        heap w !! r = None /\
        heap w' !! r = Some (OMoney {| _amount := Number.add (_amount mx) (_amount my);
                                       _currency := _currency mx |})) \/
     (_code cx <> _code cy /\
      throws (Money_add x y) w
             (lit "Cannot add amounts with different currencies: "
                ++ _code cx ++ lit " and " ++ _code cy))).
Proof.
  intros Hw Hx Hy.
  pose proof (reachable_typed_well_typed w Hw) as Hwt.
  pose proof (reachable_invariant w (reachable_typed_reachable w Hw)) as Hinv.
  destruct (Hwt x _ Hx) as [cx Hcx]. destruct (Hwt y _ Hy) as [cy Hcy].
  exists cx, cy. split; [exact Hcx|]. split; [exact Hcy|].
  pose proof (Money_add_unfold w x y mx my cx cy Hx Hy Hcx Hcy) as E.
  destruct (decide (_code cx = _code cy)) as [Heq|Hne].
  - left. split; [exact Heq|].
    destruct (Money_new_returns _ (_currency mx) w
                (sum_amount_ok _ _ (Hinv x mx Hx) (Hinv y my Hy)))
      as (r & w' & Hr & Hf & Hh & _ & _).
    exists r, w'. split; [|split; [exact Hf|]].
    + unfold returns. rewrite E, bool_decide_false by auto. exact Hr.
    + rewrite Hh. apply lookup_insert_eq.
  - right. split; [exact Hne|].
    unfold throws. rewrite E, bool_decide_true by exact Hne. reflexivity.
Qed.

End Typed.

Lemma exec_all_reachable_typed `{Host} (cs : list Call) (w : World) :
  reachable_typed w -> well_typed_calls w cs -> reachable_typed (exec_all cs w).
Proof.
  revert w. induction cs as [|c cs IH]; intros w Hw Hcs; simpl.
  - exact Hw.
  - destruct Hcs as [Hc Hrest]. apply IH; [|exact Hrest].
    apply reachable_typed_step; assumption.
Qed.

Lemma sample_world_typed : @reachable_typed stub_host sample_world.
Proof.
  apply exec_all_reachable_typed; [apply reachable_typed_empty|].
  repeat split; try reflexivity; eexists; reflexivity.
Qed.

Lemma typed_programs_keep_the_heap_typed_witness :
  exists c, heap sample_world !! 1%positive = Some (OCurrency c).
Proof.
  exact (@typed_programs_keep_the_heap_typed stub_host sample_world 3%positive
           (OMoney {| _amount := Number.of_Z 100; _currency := 1%positive |})
           sample_world_typed eq_refl).
Defined.

Lemma typed_add_returns_or_mismatch_witness :
  exists cx cy,
    heap sample_world !! 1%positive = Some (OCurrency cx) /\
    heap sample_world !! 5%positive = Some (OCurrency cy) /\
    ((_code cx = _code cy /\
      exists r w', returns (@Money_add stub_host 3%positive 6%positive) sample_world r w' /\
        heap sample_world !! r = None /\
        heap w' !! r = Some (OMoney {| _amount := Number.add (Number.of_Z 100) (Number.of_Z 7);
                                       _currency := 1%positive |})) \/
     (_code cx <> _code cy /\
      throws (@Money_add stub_host 3%positive 6%positive) sample_world
             (lit "Cannot add amounts with different currencies: "
                ++ _code cx ++ lit " and " ++ _code cy))).
Proof.
  exact (@typed_add_returns_or_mismatch stub_host sample_world 3%positive 6%positive
           {| _amount := Number.of_Z 100; _currency := 1%positive |}
           {| _amount := Number.of_Z 7; _currency := 5%positive |}
           sample_world_typed eq_refl eq_refl).
Defined.

(** ** Chains of operations *)

Section Chains.
Context {host : Host}.

(** Whatever [other] is, an [add] that returns has called the constructor
    with the currency reference of its receiver. *)
Lemma Money_add_calls_new (w : World) (x y : loc) (mx : Money) (r : loc) (w' : World) :
  heap w !! x = Some (OMoney mx) ->
  returns (Money_add x y) w r w' ->
  exists a, returns (Money_new a (_currency mx)) w r w'.
Proof.
  intros Hx Hr. unfold returns in *. unfold Money_add in Hr. unmonad.
  rewrite (the_Money_lookup _ _ _ Hx) in Hr.
  pose proof (Currency_code_world w (_currency mx)) as H2.
  destruct (Currency_code (_currency mx) w) as [[c1|e] w2]; simpl in H2; subst w2;
    [|discriminate].
  pose proof (Money_currency_world w y) as H3.
  destruct (Money_currency y w) as [[oc|e] w3]; simpl in H3; subst w3; [|discriminate].
  pose proof (Currency_code_world w oc) as H4.
  destruct (Currency_code oc w) as [[c2|e] w4]; simpl in H4; subst w4; [|discriminate].
  destruct (bool_decide (c1 ≠ c2)); cbv beta iota in Hr; [discriminate|].
  pose proof (Money_amount_world w y) as H5.
  destruct (Money_amount y w) as [[oa|e] w5]; simpl in H5; subst w5; [|discriminate].
  eexists. exact Hr.
Qed.

Lemma Money_multiply_calls_new (w : World) (x : loc) (f : number) (mx : Money)
    (r : loc) (w' : World) :
  heap w !! x = Some (OMoney mx) ->
  returns (Money_multiply x f) w r w' ->
  exists a, returns (Money_new a (_currency mx)) w r w'.
Proof.
  intros Hx Hr. unfold returns in *. unfold Money_multiply in Hr.
  destruct (Number.ltb f Number.zero); [discriminate|]. unmonad.
  rewrite (the_Money_lookup _ _ _ Hx) in Hr. eexists. exact Hr.
Qed.

Lemma apply_op_result (w : World) (x : loc) (op : MoneyOp) (mx : Money)
    (r : loc) (w' : World) :
  heap w !! x = Some (OMoney mx) ->
  returns (apply_op x op) w r w' ->
  extends w w' /\
  exists a, heap w' !! r = Some (OMoney {| _amount := a; _currency := _currency mx |}) /\
            amount_ok a.
Proof.
  intros Hx Hr.
  assert (Hnew : exists a, returns (Money_new a (_currency mx)) w r w').
  { destruct op as [y|f]; simpl in Hr.
    - apply (Money_add_calls_new w x y mx r w' Hx Hr).
    - apply (Money_multiply_calls_new w x f mx r w' Hx Hr). }
  destruct Hnew as [a Ha].
  destruct (Money_new_inv _ _ _ _ _ Ha) as (Hok & _ & Hh & _ & Hext).
  split; [exact Hext|]. exists a. split; [|exact Hok].
  rewrite Hh. apply lookup_insert_eq.
Qed.

(** X15: the currency reference of the first receiver is carried through
    a whole chain such as [x.add(y).multiply(f).add(z)]: if the chain
    returns, its result is a Money holding the very reference [x] holds, with
    an amount that is not below zero, and every object that was there before
    the chain, [x] included, is unchanged. *)
Theorem chain_keeps_currency (ops : list MoneyOp) (w : World) (x : loc) (mx : Money)
    (r : loc) (w' : World) :
  heap w !! x = Some (OMoney mx) ->
  amount_ok (_amount mx) ->
  returns (chain x ops) w r w' ->
  extends w w' /\
  exists a, heap w' !! r = Some (OMoney {| _amount := a; _currency := _currency mx |}) /\
            amount_ok a.
Proof.
  revert w x mx. induction ops as [|op ops IH]; intros w x mx Hx Hax Hr.
  - unfold returns in Hr. simpl in Hr. injection Hr as <- <-.
    split; [apply extends_refl|]. exists (_amount mx). split; [|exact Hax].
    rewrite Hx. destruct mx; reflexivity.
  - unfold returns in Hr. cbn [chain] in Hr. unmonad.
    destruct (apply_op x op w) as [[y|e] w1] eqn:Hop; [|discriminate].
    destruct (apply_op_result w x op mx y w1 Hx Hop) as (Hext1 & a1 & Hy & Ha1).
    destruct (IH w1 y _ Hy Ha1 Hr) as (Hext2 & a & Hres & Ha).
    split.
    + unfold extends in *. etrans; eassumption.
    + exists a. split; assumption.
Qed.

End Chains.

Lemma chain_keeps_currency_witness :
  exists r w',
    returns (@chain stub_host 3%positive [AddOp 4%positive; MultiplyOp (Number.of_Z 2)])
            sample_world r w' /\
    extends sample_world w' /\
    exists a, heap w' !! r = Some (OMoney {| _amount := a; _currency := 1%positive |}) /\
              amount_ok a.
Proof.
  eexists _, _. split; [vm_compute; reflexivity|].
  exact (@chain_keeps_currency stub_host
           [AddOp 4%positive; MultiplyOp (Number.of_Z 2)] sample_world 3%positive
           {| _amount := Number.of_Z 100; _currency := 1%positive |} _ _
           eq_refl eq_refl ltac:(vm_compute; reflexivity)).
Defined.

(** ** Trimming and the name of a Customer *)

Lemma trimStart_white_prefix (p s : jsstring) :
  forallb is_trimmed p = true -> trimStart (p ++ s) = trimStart s.
Proof.
  induction p as [|c p IH]; simpl; [reflexivity|].
  intros H. apply andb_true_iff in H as [Hc Hp]. rewrite Hc. apply IH, Hp.
Qed.

Lemma trimStart_app_kept (s q : jsstring) :
  trimStart s <> [] -> trimStart (s ++ q) = trimStart s ++ q.
Proof.
  induction s as [|c s IH]; simpl; [congruence|].
  destruct (is_trimmed c); [exact IH | reflexivity].
Qed.

Lemma trimEnd_white_suffix (s q : jsstring) :
  forallb is_trimmed q = true -> trimEnd (s ++ q) = trimEnd s.
Proof.
  intros Hq. unfold trimEnd. rewrite rev_app_distr.
  rewrite trimStart_white_prefix; [reflexivity|].
  rewrite forallb_rev. exact Hq.
Qed.

Lemma trimStart_head (s : jsstring) (c : code_unit) (r : jsstring) :
  trimStart s = c :: r -> is_trimmed c = false.
Proof.
  induction s as [|d s IH]; simpl; [discriminate|].
  destruct (is_trimmed d) eqn:Hd; [exact IH|].
  intros [= <- _]. exact Hd.
Qed.

Lemma trimEnd_prefix (t : jsstring) :
  exists q, t = trimEnd t ++ q /\ forallb is_trimmed q = true.
Proof.
  destruct (trimStart_suffix (rev t)) as (q' & Hq & Hall).
  exists (rev q'). split.
  - unfold trimEnd. rewrite <- rev_app_distr, <- Hq, rev_involutive. reflexivity.
  - rewrite forallb_rev. exact Hall.
Qed.

Lemma trimEnd_last (t r : jsstring) (c : code_unit) :
  trimEnd t = r ++ [c] -> is_trimmed c = false.
Proof.
  unfold trimEnd. intros E. apply (f_equal (@rev _)) in E.
  rewrite rev_involutive, rev_app_distr in E. simpl in E.
  apply (trimStart_head _ _ _ E).
Qed.

(** X16: [trim] removes white space at both ends and nothing else: a
    string is a run of white space, its trimmed form, and a run of white
    space, and the trimmed form neither starts nor ends with white space. *)
Theorem trim_decomposition (s : jsstring) :
  (exists p q,
      s = p ++ trim s ++ q /\
      forallb is_trimmed p = true /\ forallb is_trimmed q = true) /\
  (forall c r, trim s = c :: r -> is_trimmed c = false) /\
  (forall r c, trim s = r ++ [c] -> is_trimmed c = false).
Proof.
  destruct (trimStart_suffix s) as (p & Hp & Hpw).
  destruct (trimEnd_prefix (trimStart s)) as (q & Hq & Hqw).
  split; [|split].
  - exists p, q. split; [|split; assumption].
    unfold trim. rewrite <- Hq. exact Hp.
  - intros c r E. unfold trim in E.
    apply (trimStart_head s c (r ++ q)). rewrite Hq, E. reflexivity.
  - intros r c E. apply (trimEnd_last (trimStart s) r c E).
Qed.

Lemma trim_padding (p s q : jsstring) :
  forallb is_trimmed p = true -> forallb is_trimmed q = true ->
  trim (p ++ s ++ q) = trim s.
Proof.
  intros Hp Hq. unfold trim. rewrite (trimStart_white_prefix p _ Hp).
  destruct (trimStart s) as [|c t] eqn:Hs.
  - assert (Hall : forallb is_trimmed (s ++ q) = true).
    { rewrite forallb_app. apply andb_true_iff. split; [|exact Hq].
      apply trimStart_nil_iff. exact Hs. }
    apply trimStart_nil_iff in Hall. rewrite Hall. reflexivity.
  - rewrite trimStart_app_kept by (rewrite Hs; discriminate).
    rewrite Hs. apply trimEnd_white_suffix. exact Hq.
Qed.

Section Padding.
Context {host : Host}.

Lemma Customer_new_fails_iff (name : jsstring) (w : World) :
  fails (Customer_new name) w <-> blank name = true.
Proof.
  split.
  - intros [e He]. destruct (blank name) eqn:Hb; [reflexivity|].
    destruct (Customer_new_returns name w Hb) as (c & w' & E & _).
    unfold returns in E. rewrite E in He. discriminate He.
  - intros Hb. eexists. rewrite (Customer_new_throws name w Hb). reflexivity.
Qed.

(** X17: white space around a name changes neither its trimmed form nor
    whether the constructor accepts it; what the constructor stores for an
    accepted name is the name as given, white space included. *)
Theorem Customer_new_ignores_padding (p name q : jsstring) (w : World) :
  forallb is_trimmed p = true ->
  forallb is_trimmed q = true ->
  trim (p ++ name ++ q) = trim name /\
  (fails (Customer_new (p ++ name ++ q)) w <-> fails (Customer_new name) w) /\
  (forall c w', returns (Customer_new (p ++ name ++ q)) w c w' ->
                returns (Customer_name c) w' (p ++ name ++ q) w').
Proof.
  intros Hp Hq. split; [apply trim_padding; assumption|]. split.
  - rewrite !Customer_new_fails_iff, !blank_all_white.
    rewrite !forallb_app, Hp, Hq. simpl. rewrite andb_true_r. reflexivity.
  - intros c w' Hr.
    destruct (blank (p ++ name ++ q)) eqn:Hb.
    { unfold returns in Hr.
      rewrite (Customer_new_throws _ w Hb) in Hr. discriminate Hr. }
    destruct (Customer_new_returns _ w Hb) as (c0 & w0 & E & _ & Hh & _ & _).
    unfold returns in Hr, E. rewrite E in Hr. injection Hr as -> ->.
    apply (Customer_getters w' c
             {| _id := randomUUID (drawn w); _name := p ++ name ++ q;
                _lastOrderPrice := None |}).
    rewrite Hh. apply lookup_insert_eq.
Qed.

End Padding.

Lemma Customer_new_ignores_padding_witness :
  trim (lit " " ++ lit "Jane" ++ lit " ") = trim (lit "Jane") /\
  (fails (@Customer_new stub_host (lit " " ++ lit "Jane" ++ lit " ")) empty_world
   <-> fails (@Customer_new stub_host (lit "Jane")) empty_world).
Proof.
  destruct (@Customer_new_ignores_padding stub_host (lit " ") (lit "Jane") (lit " ")
              empty_world eq_refl eq_refl) as (Ht & Hf & _).
  split; assumption.
Defined.

(** ** More on Money and DateTime *)

Lemma Money_add_commutes_witness :
  (fails (@Money_add stub_host 3%positive 6%positive) sample_world
   <-> fails (@Money_add stub_host 6%positive 3%positive) sample_world) /\
  (forall r1 w1 r2 w2,
      returns (@Money_add stub_host 3%positive 4%positive) sample_world r1 w1 ->
      returns (@Money_add stub_host 4%positive 3%positive) sample_world r2 w2 ->
      exists a,
        heap w1 !! r1 = Some (OMoney {| _amount := a; _currency := 1%positive |}) /\
        heap w2 !! r2 = Some (OMoney {| _amount := a; _currency := 2%positive |})).
Proof.
  split.
  - exact (proj1 (@Money_add_commutes stub_host sample_world 3%positive 6%positive
                    {| _amount := Number.of_Z 100; _currency := 1%positive |}
                    {| _amount := Number.of_Z 7; _currency := 5%positive |}
                    {| _code := USD |} {| _code := EUR |}
                    eq_refl eq_refl eq_refl eq_refl)).
  - exact (proj2 (@Money_add_commutes stub_host sample_world 3%positive 4%positive
                    {| _amount := Number.of_Z 100; _currency := 1%positive |}
                    {| _amount := Number.of_Z 50; _currency := 2%positive |}
                    {| _code := USD |} {| _code := USD |}
                    eq_refl eq_refl eq_refl eq_refl)).
Defined.

Lemma Money_add_zero_witness :
  exists r w' a,
    returns (@Money_add stub_host 3%positive 8%positive) odd_amounts r w' /\
    heap odd_amounts !! r = None /\
    heap w' !! r = Some (OMoney {| _amount := a; _currency := 1%positive |}) /\
    (Number.is_zero (Number.of_Z 100) = false -> a = Number.of_Z 100) /\
    (Number.is_zero (Number.of_Z 100) = true -> Number.is_zero a = true).
Proof.
  exact (@Money_add_zero stub_host odd_amounts 3%positive 8%positive
           {| _amount := Number.of_Z 100; _currency := 1%positive |}
           {| _amount := Number.zero; _currency := 1%positive |}
           {| _code := USD |} {| _code := USD |}
           eq_refl eq_refl eq_refl eq_refl eq_refl eq_refl eq_refl).
Defined.

Section Edges.
Context {host : Host}.

(** X18: for an amount that is NaN, infinite, or at least [10^21],
    [toString] does not produce two decimals: it returns the currency code, a
    space, and the plain ToString rendering of the amount ("NaN", "Infinity",
    or exponent notation). *)
Theorem Money_toString_out_of_range
    (w : World) (x : loc) (mx : Money) (cx : Currency) :
  heap w !! x = Some (OMoney mx) ->
  heap w !! _currency mx = Some (OCurrency cx) ->
  amount_ok (_amount mx) ->
  ToFixed.in_range (_amount mx) = false ->
  returns (Money_toString x) w
          (_code cx ++ lit " " ++ Number_toString (_amount mx)) w.
Proof.
  intros Hx Hc Hax Hout. unfold returns.
  rewrite (Money_toString_unfold w x mx cx Hx Hc). do 3 f_equal.
  unfold amount_ok in Hax. rewrite NumberFacts.ltb_zero in Hax.
  destruct (_amount mx) as [s|s| |s m e]; try discriminate Hout; try reflexivity.
  simpl in Hax, Hout. subst s. apply negb_false_iff in Hout.
  unfold Number_toFixed. rewrite Hout. reflexivity.
Qed.

(** X19: a call that throws changes nothing: no object is allocated or
    modified and no identifier is drawn. In particular the Customer
    constructor validates the name before it draws the identifier. *)
Theorem throwing_calls_change_nothing (w : World) :
  (forall a cur e, fst (Money_new a cur w) = Throw e -> snd (Money_new a cur w) = w) /\
  (forall x y e, fst (Money_add x y w) = Throw e -> snd (Money_add x y w) = w) /\
  (forall x f e, fst (Money_multiply x f w) = Throw e ->
                 snd (Money_multiply x f w) = w) /\
  (forall name e, fst (Customer_new name w) = Throw e ->
                  snd (Customer_new name w) = w) /\
  (forall c v e, fst (Customer_set_lastOrderPrice c v w) = Throw e ->
                 snd (Customer_set_lastOrderPrice c v w) = w).
Proof.
  assert (Hnew : forall a cur e, fst (Money_new a cur w) = Throw e ->
                                 snd (Money_new a cur w) = w).
  { intros a cur e. unfold Money_new.
    destruct (Number.ltb a Number.zero); [reflexivity | discriminate]. }
  split; [exact Hnew|]. split; [|split; [|split]].
  - intros x y e.
    destruct (Money_add_world w x y) as [[e' E] | (a & cur & E)]; rewrite E.
    + reflexivity.
    + apply Hnew.
  - intros x f e.
    destruct (Money_multiply_world w x f) as [[e' E] | (a & cur & E)]; rewrite E.
    + reflexivity.
    + apply Hnew.
  - intros name e. destruct (blank name) eqn:Hb.
    + rewrite (Customer_new_throws name w Hb). reflexivity.
    + destruct (Customer_new_returns name w Hb) as (c & w' & E & _).
      unfold returns in E. rewrite E. discriminate.
  - intros c v e.
    destruct (heap w !! c) as [[cur|m|cu]|] eqn:Hc;
      try (unfold Customer_set_lastOrderPrice, the_Customer; unmonad;
           rewrite Hc; reflexivity).
    rewrite (Customer_set_lastOrderPrice_returns w c v cu Hc). discriminate.
Qed.

End Edges.

Lemma Money_toString_out_of_range_witness :
  returns (@Money_toString stub_host 9%positive) odd_amounts
          (USD ++ lit " " ++ @Number_toString stub_host Number.NaN) odd_amounts.
Proof.
  exact (@Money_toString_out_of_range stub_host odd_amounts 9%positive
           {| _amount := Number.NaN; _currency := 1%positive |}
           {| _code := USD |} eq_refl eq_refl eq_refl eq_refl).
Defined.

Lemma throwing_calls_change_nothing_witness :
  snd (@Money_add stub_host 3%positive 6%positive sample_world) = sample_world /\
  snd (@Customer_new stub_host (lit "  ") sample_world) = sample_world.
Proof.
  destruct (@throwing_calls_change_nothing stub_host sample_world)
    as (_ & Hadd & _ & Hcust & _).
  split.
  - exact (Hadd 3%positive 6%positive _ eq_refl).
  - exact (Hcust (lit "  ") _ eq_refl).
Defined.

(** ** DateTime and the Date object it holds *)

Section DateTimeStore.
Context {host : Host} {iso : IsoFormat}.

(** What a construction that returned has done to the store. *)
Lemma DateTime_create_inv (clock : Z) (value : option DateValue)
    (dates : gmap loc Date) (d : DateTimeObject) (dates' : gmap loc Date) :
  DateTime_create clock value dates = (Normal d, dates') ->
  exists t,
    (t <= clock)%Z /\
    dates !! _date_ref d = None /\
    dates' = <[_date_ref d := {| getTime := Some t |}]> dates.
Proof.
  unfold DateTime_create. destruct (read_value dates value) as [arg|]; [|discriminate].
  destruct (DateTime_new clock arg) as [dt|e] eqn:Hnew; [|discriminate].
  intros [= <- <-]. simpl.
  destruct (DateTime_new_holds clock arg dt Hnew) as (t & Ht & Hle & _).
  exists t. split; [exact Hle|]. split.
  - apply not_elem_of_dom, is_fresh.
  - destruct dt as [[tv]]. simpl in Ht. subst tv. reflexivity.
Qed.

Lemma Date_setTime_lookup (l l' : loc) (t : option Z) (dates : gmap loc Date) :
  Date_setTime l t dates !! l'
  = if decide (l = l')
    then match dates !! l with Some _ => Some {| getTime := t |} | None => None end
    else dates !! l'.
Proof.
  unfold Date_setTime. destruct (decide (l = l')) as [<-|Hne].
  - destruct (dates !! l) as [d|] eqn:Hl.
    + apply lookup_insert_eq.
    + exact Hl.
  - destruct (dates !! l) as [d|]; [|reflexivity].
    apply lookup_insert_ne. exact Hne.
Qed.

(** X3: right after construction [toString] returns the ISO rendering of
    an instant not after the clock. The Date the DateTime holds is an object
    of its own: changing any other Date, the one passed to the constructor
    included, does not change what [toString] returns. But [value] hands out
    that Date itself, and a [setTime] through it changes what [toString]
    returns, up to the [RangeError] of an invalid date. *)
Theorem DateTime_toString_after_create (clock : Z) (value : option DateValue)
    (dates : gmap loc Date) (d : DateTimeObject) (dates' : gmap loc Date) :
  DateTime_create clock value dates = (Normal d, dates') ->
  dates !! DateTime_value_ref d = None /\
  (exists t, (t <= clock)%Z /\
     DateTime_toString d dates' = Some (IsoString (iso_string t))) /\
  (forall l t', l <> DateTime_value_ref d ->
     DateTime_toString d (Date_setTime l t' dates') = DateTime_toString d dates') /\
  (forall t : Z,
     DateTime_toString d (Date_setTime (DateTime_value_ref d) (Some t) dates')
     = Some (IsoString (iso_string t))) /\
  DateTime_toString d (Date_setTime (DateTime_value_ref d) None dates')
  = Some RangeError.
Proof.
  intros Hc. destruct (DateTime_create_inv _ _ _ _ _ Hc) as (t & Hle & Hfresh & ->).
  unfold DateTime_value_ref, DateTime_toString.
  split; [exact Hfresh|]. split; [|split; [|split]].
  - exists t. split; [exact Hle|]. rewrite lookup_insert_eq. reflexivity.
  - intros l t' Hne. rewrite Date_setTime_lookup.
    rewrite decide_False by exact Hne. reflexivity.
  - intros t'. rewrite Date_setTime_lookup, decide_True by reflexivity.
    rewrite lookup_insert_eq. reflexivity.
  - rewrite Date_setTime_lookup, decide_True by reflexivity.
    rewrite lookup_insert_eq. reflexivity.
Qed.

(** X20: as long as the Date a DateTime holds has not been changed,
    [new DateTime(d.value)] at a later clock returns a DateTime with the same
    instant, held in a new Date object; [d] and its Date are left as they
    are. Once that Date has been set, through [value], to an invalid instant
    or to one after the clock, the same call throws. *)
Theorem DateTime_rewrap (clock clock' : Z) (value : option DateValue)
    (dates : gmap loc Date) (d : DateTimeObject) (dates' : gmap loc Date) :
  DateTime_create clock value dates = (Normal d, dates') ->
  (clock <= clock')%Z ->
  (forall later : gmap loc Date,
      later !! DateTime_value_ref d = dates' !! DateTime_value_ref d ->
      exists d2 later2,
        DateTime_create clock' (Some (VDate (DateTime_value_ref d))) later
          = (Normal d2, later2) /\
        DateTime_value_ref d2 <> DateTime_value_ref d /\
        later !! DateTime_value_ref d2 = None /\
        later2 !! DateTime_value_ref d2 = dates' !! DateTime_value_ref d /\
        later2 !! DateTime_value_ref d = dates' !! DateTime_value_ref d) /\
  (exists e,
      DateTime_create clock' (Some (VDate (DateTime_value_ref d)))
        (Date_setTime (DateTime_value_ref d) None dates')
      = (Throw e, Date_setTime (DateTime_value_ref d) None dates')) /\
  (forall t, (clock' < t)%Z ->
      exists e,
        DateTime_create clock' (Some (VDate (DateTime_value_ref d)))
          (Date_setTime (DateTime_value_ref d) (Some t) dates')
        = (Throw e, Date_setTime (DateTime_value_ref d) (Some t) dates')).
Proof.
  intros Hc Hle.
  destruct (DateTime_create_inv _ _ _ _ _ Hc) as (t & Ht & Hfresh & ->).
  unfold DateTime_value_ref.
  set (l := _date_ref d) in *.
  assert (Hheld : <[l := {| getTime := Some t |}]> dates !! l
                  = Some {| getTime := Some t |}) by apply lookup_insert_eq.
  split; [|split].
  - intros later Hsame. rewrite Hheld in Hsame.
    unfold DateTime_create, read_value. rewrite Hsame.
    rewrite (DateTime_new_past clock' (ADate {| getTime := Some t |}) t
               eq_refl eq_refl ltac:(lia)).
    eexists _, _. split; [reflexivity|]. cbn [_date_ref Date_of getTime _date].
    assert (Hnew : later !! fresh (dom later) = None)
      by apply not_elem_of_dom, is_fresh.
    assert (Hne : fresh (dom later) <> l).
    { intros E. rewrite E, Hsame in Hnew. discriminate. }
    repeat split.
    + exact Hne.
    + exact Hnew.
    + rewrite lookup_insert_eq, Hheld. reflexivity.
    + rewrite lookup_insert_ne by exact Hne. rewrite Hheld. exact Hsame.
  - unfold DateTime_create, read_value.
    rewrite Date_setTime_lookup, decide_True by reflexivity. rewrite Hheld.
    eexists. reflexivity.
  - intros t' Hlt. unfold DateTime_create, read_value.
    rewrite Date_setTime_lookup, decide_True by reflexivity. rewrite Hheld.
    unfold DateTime_new. cbn [truthy Date_of getTime].
    destruct (Z.ltb_spec clock' t') as [_|?]; [|lia].
    eexists. reflexivity.
Qed.

End DateTimeStore.

Lemma DateTime_toString_after_create_witness :
  exists d dates',
    @DateTime_create stub_host 1700000000000 (Some (VString iso_example)) ∅
      = (Normal d, dates') /\
    @DateTime_toString stub_iso d dates' = Some (IsoString (lit "<iso>")) /\
    @DateTime_toString stub_iso d (Date_setTime (DateTime_value_ref d) None dates')
      = Some RangeError.
Proof.
  eexists _, _. split; [reflexivity|].
  destruct (@DateTime_toString_after_create stub_host stub_iso 1700000000000
              (Some (VString iso_example)) ∅ _ _ eq_refl)
    as (_ & (t & _ & Hs) & _ & _ & Hbad).
  split; [exact Hs | exact Hbad].
Defined.

Lemma DateTime_rewrap_witness :
  exists d dates' d2 dates2,
    @DateTime_create stub_host 1700000000000 (Some (VString iso_example)) ∅
      = (Normal d, dates') /\
    @DateTime_create stub_host 1800000000000 (Some (VDate (DateTime_value_ref d))) dates'
      = (Normal d2, dates2) /\
    DateTime_value_ref d2 <> DateTime_value_ref d /\
    dates2 !! DateTime_value_ref d2 = dates' !! DateTime_value_ref d.
Proof.
  destruct (proj1 (@DateTime_rewrap stub_host 1700000000000 1800000000000
              (Some (VString iso_example)) ∅ _ _ eq_refl ltac:(lia)) _ eq_refl)
    as (d2 & dates2 & Hc & Hne & _ & Hsame & _).
  eexists _, _, d2, dates2. split; [reflexivity|].
  repeat split; assumption.
Defined.
